(** * Opm::TimeMap: the report-step timeline of an Eclipse deck

    A shallow embedding of [lib/eclipse/EclipseState/Schedule/TimeMap.cpp]
    and the properties of its timeline: ordered appends, the first-of-month
    and first-of-year index vectors, date validation, the month-name table
    and the periodic report-boundary query. *)

From Stdlib Require Import ZArith NArith Floats Ascii String List Lia.
From stdpp Require Import base decidable option list strings gmap.

Local Open Scope Z_scope.

(** ** Machine numbers

    [std::time_t], [int64_t] and [int] values are integers of [Z];
    [size_t] values are naturals of [N]. Conversions between them are
    written out with their wrap-around. Signed overflow of [time_t]
    arithmetic is undefined in the source; a sum or a difference of
    timestamps has the two's-complement result of the compiled code,
    [to_int64] of the sum or difference in [Z]. *)

Abbreviation time_t := Z (only parsing).
Abbreviation int64_t := Z (only parsing).
Abbreviation size_t := N (only parsing).

(** Conversion of a signed value to [size_t] (64 bits, modulo). *)
Definition to_size_t (z : Z) : size_t := Z.to_N (z mod 2 ^ 64).

(** Narrowing to a 32-bit [int] (two's complement). *)
Definition to_int (z : Z) : Z := (z + 2 ^ 31) mod 2 ^ 32 - 2 ^ 31.

(** The result of 64-bit signed arithmetic (two's complement): the value
    in [Z] when it is within the 64-bit range, wrapped around otherwise. *)
Definition to_int64 (z : Z) : int64_t := (z + 2 ^ 63) mod 2 ^ 64 - 2 ^ 63.

(** [static_cast<double>] of a 64-bit integer: the nearest binary64 value,
    ties to even. *)
Definition static_cast_double (z : Z) : float :=
  SF2Prim (binary_normalize prec emax z 0 false).

(** [static_cast<int64_t>] of a double: truncation towards zero. The cast
    is undefined for NaN, infinities and values outside the 64-bit range;
    the model returns what the x86-64 conversion instruction returns
    there, the most negative integer. *)
Definition static_cast_int64 (x : float) : int64_t :=
  match Prim2SF x with
  | S754_zero _ => 0
  | S754_finite s m e =>
      let a := if bool_decide (0 ≤ e) then Z.pos m * 2 ^ e
               else Z.pos m / 2 ^ (- e) in
      let v := if s then - a else a in
      if bool_decide (- 2 ^ 63 ≤ v < 2 ^ 63) then v else - 2 ^ 63
  | _ => - 2 ^ 63
  end.

(** ** Vectors

    [std::vector] is a list; an iterator is a position, [end()] being the
    length. *)

Definition vec_size {A} (v : list A) : size_t := N.of_nat (length v).

Definition vec_end {A} (v : list A) : nat := length v.

(** Unchecked [operator[]]; out of range is undefined in the source, the
    model returns the default value. *)
Definition vec_at {A} `{Inhabited A} (v : list A) (i : nat) : A :=
  default inhabitant (v !! i).

(** [back()]; undefined on an empty vector, which no constructor of
    [TimeMap] produces. *)
Definition vec_back {A} `{Inhabited A} (v : list A) : A :=
  default inhabitant (last v).

Definition push_back {A} (v : list A) (x : A) : list A := v ++ [x].

(** [std::find]: the position of the first element equal to [x], or
    [end()]. *)
Fixpoint std_find (v : list size_t) (x : size_t) : nat :=
  match v with
  | [] => 0%nat
  | y :: v' => if bool_decide (y = x) then 0%nat else S (std_find v' x)
  end.

(** [std::lower_bound] as the standard library implements it: a binary
    search that halves the remaining length [len] of the range starting
    at [first]. The recursion is on a fuel that the length bounds. *)
Fixpoint lower_bound_loop (fuel : nat) (v : list size_t) (value : size_t)
    (first len : nat) : nat :=
  match fuel with
  | O => first
  | S fuel' =>
      if bool_decide (0 < len)%nat then
        let half := Nat.div2 len in
        let middle := (first + half)%nat in
        if bool_decide (vec_at v middle < value)%N
        then lower_bound_loop fuel' v value (middle + 1) (len - half - 1)
        else lower_bound_loop fuel' v value first half
      else first
  end.

Definition std_lower_bound (v : list size_t) (value : size_t) : nat :=
  lower_bound_loop (length v) v value 0 (length v).

(** ** Exceptions *)

Inductive exception : Type :=
  | invalid_argument (what : string)
  | out_of_range
  | assertion_failure
  | deck_exception.

Inductive result (A : Type) : Type :=
  | Ok (a : A)
  | Throw (e : exception).
Arguments Ok {A} a.
Arguments Throw {A} e.

#[export] Instance result_ret : MRet result := @Ok.
#[export] Instance result_bind : MBind result := λ A B f r,
  match r with
  | Ok a => f a
  | Throw e => Throw e
  end.

(** The error kinds of the component. *)
Definition ordering_violation : exception :=
  invalid_argument "Times added must be in strictly increasing order.".
Definition invalid_date : exception :=
  invalid_argument "Invalid input arguments for date.".
Definition index_out_of_range : exception :=
  invalid_argument "Index out of range".
(** [std::map::at] on a month token that the table does not hold. *)
Definition unknown_month_name : exception := out_of_range.

(** ** UTC calendar (ERT libutil)

    Modelled from the spec: [util_make_datetime_utc] and
    [util_set_date_values_utc] belong to the ERT utility library and are
    not part of the sources. They are the UTC calendar functions [timegm]
    and [gmtime] on the proleptic Gregorian calendar: composing normalises
    fields that are out of range (it wraps), decomposing returns the day
    of the month, the month number 1..12 and the year. *)

Module Calendar.

(** Days since 1970-01-01 of the civil date [y]-[m]-[d], for a month
    [m] of 1..12 and any day number [d]. *)
Definition days_from_civil (y m d : Z) : Z :=
  let y' := if bool_decide (m ≤ 2) then y - 1 else y in
  let era := y' / 400 in
  let yoe := y' - era * 400 in
  let mp := if bool_decide (2 < m) then m - 3 else m + 9 in
  let doy := (153 * mp + 2) / 5 + d - 1 in
  let doe := yoe * 365 + yoe / 4 - yoe / 100 + doy in
  era * 146097 + doe - 719468.

(** The civil date (year, month, day) of a day number. *)
Definition civil_from_days (z : Z) : Z * Z * Z :=
  let z' := z + 719468 in
  let era := z' / 146097 in
  let doe := z' - era * 146097 in
  let yoe := (doe - doe / 1460 + doe / 36524 - doe / 146096) / 365 in
  let y := yoe + era * 400 in
  let doy := doe - (365 * yoe + yoe / 4 - yoe / 100) in
  let mp := (5 * doy + 2) / 153 in
  let d := doy - (153 * mp + 2) / 5 + 1 in
  let m := if bool_decide (mp < 10) then mp + 3 else mp - 9 in
  (if bool_decide (m ≤ 2) then y + 1 else y, m, d).

Definition is_leap (y : Z) : bool :=
  bool_decide (y mod 4 = 0 ∧ (y mod 100 ≠ 0 ∨ y mod 400 = 0)).

Definition days_in_month (y m : Z) : Z :=
  if bool_decide (m = 2) then (if is_leap y then 29 else 28)
  else if bool_decide (m = 4 ∨ m = 6 ∨ m = 9 ∨ m = 11) then 30
  else 31.

(** A date of the calendar. *)
Definition valid_date (y m d : Z) : Prop :=
  1 ≤ m ≤ 12 ∧ 1 ≤ d ≤ days_in_month y m.

(** The day, within its 400-year era, on which the year [yoe] of the era
    starts; the years of an era start on the first of March. *)
Definition first_day_of_year (yoe : Z) : Z := 365 * yoe + yoe / 4 - yoe / 100.

(** Modelled from the spec: ERT's [util_make_datetime_utc], which is not
    in the sources, composes a UTC timestamp as [timegm] does: months
    outside 1..12 carry into the year, days outside the month and hours,
    minutes and seconds outside their range carry forward or backward. *)
Definition util_make_datetime_utc (sec min hour mday month year : Z)
    : time_t :=
  let y := year + (month - 1) / 12 in
  let m := (month - 1) mod 12 + 1 in
  (days_from_civil y m 1 + (mday - 1)) * 86400
  + hour * 3600 + min * 60 + sec.

(** Modelled from the spec: ERT's [util_set_date_values_utc], which is not
    in the sources, decomposes a timestamp as [gmtime] does and returns
    the UTC (mday, month, year). *)
Definition util_set_date_values_utc (t : time_t) : Z * Z * Z :=
  let '(y, m, d) := civil_from_days (t / 86400) in (d, m, y).

#[global] Arguments util_make_datetime_utc : simpl never.
#[global] Arguments util_set_date_values_utc : simpl never.

End Calendar.
Export Calendar.

(** ** The deck

    Modelled from the spec: the classes [Deck], [DeckKeyword],
    [DeckRecord] and [DeckItem] are declared outside the sources. A deck is
    the ordered stream of keyword occurrences; a keyword has a name and
    records; a record is a sequence of items; an item holds the values of
    one type. Every accessor that fails throws [deck_exception]. *)

Module Deck.

(** Modelled from the spec: [DeckItem], declared outside the sources,
    holds the values of one field of a record, all of one type. *)
Inductive DeckItem : Type :=
  | IntItem (data : list Z)
  | DoubleItem (data : list float)
  | StringItem (data : list string).

Abbreviation DeckRecord := (list DeckItem) (only parsing).

(** Modelled from the spec: [DeckKeyword], declared outside the sources,
    is a keyword occurrence: its name and its records. *)
Record DeckKeyword : Type := mkDeckKeyword {
  name : string;
  records : list (list DeckItem)
}.

Abbreviation Deck := (list DeckKeyword) (only parsing).

(** Modelled from the spec: the accessors of the deck classes. A read
    outside the stored values, or of another type than the stored one,
    throws. *)
Definition item_size (item : DeckItem) : nat :=
  match item with
  | IntItem data => length data
  | DoubleItem data => length data
  | StringItem data => length data
  end.

Definition hasValue (item : DeckItem) (index : nat) : bool :=
  bool_decide (index < item_size item)%nat.

Definition checked {A} (o : option A) : result A :=
  match o with
  | Some a => Ok a
  | None => Throw deck_exception
  end.

Definition get_int (item : DeckItem) (index : nat) : result Z :=
  match item with
  | IntItem data => checked (data !! index)
  | _ => Throw deck_exception
  end.

Definition get_double (item : DeckItem) (index : nat) : result float :=
  match item with
  | DoubleItem data => checked (data !! index)
  | _ => Throw deck_exception
  end.

Definition get_string (item : DeckItem) (index : nat) : result string :=
  match item with
  | StringItem data => checked (data !! index)
  | _ => Throw deck_exception
  end.

Definition getItem (record : DeckRecord) (index : nat) : result DeckItem :=
  checked (record !! index).

Definition getRecord (keyword : DeckKeyword) (index : nat)
    : result DeckRecord :=
  checked (records keyword !! index).

Definition keyword_size (keyword : DeckKeyword) : nat :=
  length (records keyword).

Definition hasKeyword (deck : Deck) (kw : string) : bool :=
  bool_decide (Exists (λ k, name k = kw) deck).

(** Modelled from the spec: [Deck::getKeyword], declared outside the
    sources; it returns the last occurrence of the keyword. *)
Definition getKeyword (deck : Deck) (kw : string) : result DeckKeyword :=
  checked (last (filter (λ k, name k = kw) deck)).

End Deck.
Export Deck.

(** ** [sscanf] with the format ["%d:%d:%d"]

    Each [%d] skips white space, then reads an optional sign and at least
    one decimal digit, and stores an [int]; the colons match literally. The
    source only tests whether all three conversions succeeded, so the model
    returns the three stored numbers in that case and [None] otherwise. *)

Module Scan.

Definition isspace (c : ascii) : bool :=
  let n := N_of_ascii c in
  bool_decide (n = 32 ∨ 9 ≤ n ≤ 13)%N.

Definition isdigit (c : ascii) : bool :=
  let n := N_of_ascii c in bool_decide (48 ≤ n ≤ 57)%N.

Definition digit_value (c : ascii) : Z := Z.of_N (N_of_ascii c) - 48.

Fixpoint skip_space (s : string) : string :=
  match s with
  | String c s' => if isspace c then skip_space s' else s
  | EmptyString => s
  end.

Fixpoint scan_digits (acc : Z) (s : string) : Z * string :=
  match s with
  | String c s' =>
      if isdigit c then scan_digits (10 * acc + digit_value c) s'
      else (acc, s)
  | EmptyString => (acc, s)
  end.

(** The [int] that a [%d] conversion stores for the number read. A number
    outside the range of [int] is undefined in C; the model follows the C
    library of the platform (glibc), which converts the digits as [strtol]
    does, to a [long] that saturates at its bounds, and stores its low 32
    bits. *)
Definition store_int (v : Z) : Z :=
  to_int (Z.max (- 2 ^ 63) (Z.min v (2 ^ 63 - 1))).

Definition scan_d (s : string) : option (Z * string) :=
  let s0 := skip_space s in
  let '(negative, s1) :=
    match s0 with
    | String "-" r => (true, r)
    | String "+" r => (false, r)
    | _ => (false, s0)
    end in
  match s1 with
  | String c _ =>
      if isdigit c then
        let '(v, rest) := scan_digits 0 s1 in
        Some (store_int (if negative : bool then - v else v), rest)
      else None
  | EmptyString => None
  end.

Definition scan_colon (s : string) : option string :=
  match s with
  | String ":" r => Some r
  | _ => None
  end.

Definition sscanf_hms (s : string) : option (Z * Z * Z) :=
  '(hour, s1) ← scan_d s;
  s2 ← scan_colon s1;
  '(min, s3) ← scan_d s2;
  s4 ← scan_colon s3;
  '(second, _) ← scan_d s4;
  Some (hour, min, second).

End Scan.
Export Scan.

(** ** The timeline *)

Record TimeMap : Type := mkTimeMap {
  m_timeList : list time_t;
  m_first_timestep_years : list size_t;
  m_first_timestep_months : list size_t
}.

(** A method of the class: it runs on the object, may update it, and
    returns or throws. What a method has written before it throws stays
    written. *)
Definition method (A : Type) : Type := TimeMap → TimeMap * result A.

#[export] Instance method_ret : MRet method := λ A a tm, (tm, Ok a).
#[export] Instance method_bind : MBind method := λ A B f c tm,
  match c tm with
  | (tm', Ok a) => f a tm'
  | (tm', Throw e) => (tm', Throw e)
  end.

Definition this : method TimeMap := λ tm, (tm, Ok tm).
Definition update (f : TimeMap → TimeMap) : method unit :=
  λ tm, (f tm, Ok tt).
Definition throw {A} (e : exception) : method A := λ tm, (tm, Throw e).
Definition lift {A} (r : result A) : method A := λ tm, (tm, r).

(** A range-based [for] loop: the body runs on each element in order and
    the first exception leaves the loop. *)
Fixpoint foreach {A} (l : list A) (body : A → method unit) : method unit :=
  match l with
  | [] => mret tt
  | x :: l' => body x;; foreach l' body
  end.

Definition push_time (t : time_t) (tm : TimeMap) : TimeMap :=
  {| m_timeList := push_back (m_timeList tm) t;
     m_first_timestep_years := m_first_timestep_years tm;
     m_first_timestep_months := m_first_timestep_months tm |}.

Definition push_month (step : size_t) (tm : TimeMap) : TimeMap :=
  {| m_timeList := m_timeList tm;
     m_first_timestep_years := m_first_timestep_years tm;
     m_first_timestep_months := push_back (m_first_timestep_months tm) step |}.

Definition push_year (step : size_t) (tm : TimeMap) : TimeMap :=
  {| m_timeList := m_timeList tm;
     m_first_timestep_years := push_back (m_first_timestep_years tm) step;
     m_first_timestep_months := m_first_timestep_months tm |}.

(** The object before a constructor body runs: three empty vectors. *)
Definition TimeMap_empty : TimeMap := mkTimeMap [] [] [].

(** [TimeMap::TimeMap(std::time_t)] *)
Definition TimeMap_ctor (startTime : time_t) : TimeMap :=
  push_time startTime TimeMap_empty.

Definition forward (t : time_t) (seconds : int64_t) : time_t :=
  to_int64 (t + seconds).

(** The overload of [forward] with hours, minutes and seconds; the sum is
    evaluated from the left. *)
Definition forward_hms (t : time_t) (hours minutes seconds : int64_t)
    : time_t :=
  to_int64 (to_int64 (to_int64 (t + seconds) + to_int64 (minutes * 60))
            + to_int64 (hours * 3600)).

Definition mkdatetime (in_year in_month in_day hour minute second : Z)
    : result time_t :=
  let t := util_make_datetime_utc second minute hour in_day in_month in_year in
  let '(out_day, out_month, out_year) := util_set_date_values_utc t in
  if bool_decide (in_day ≠ out_day ∨ in_month ≠ out_month ∨ in_year ≠ out_year)
  then Throw invalid_date
  else Ok t.

Definition mkdate (in_year in_month in_day : Z) : result time_t :=
  mkdatetime in_year in_month in_day 0 0 0.

(** [vec_back] and [vec_size] are read before anything is written, as
    [lastTime] and [step] are in the source. *)
Definition addTime (newTime : time_t) : method unit :=
  tm ← this;
  let lastTime := vec_back (m_timeList tm) in
  let step := vec_size (m_timeList tm) in
  if bool_decide (newTime > lastTime) then
    let '(new_day, new_month, new_year) := util_set_date_values_utc newTime in
    let '(last_day, last_month, last_year) := util_set_date_values_utc lastTime in
    (if bool_decide (new_month ≠ last_month)
     then update (push_month step) else mret tt);;
    (if bool_decide (new_year ≠ last_year)
     then update (push_year step) else mret tt);;
    update (push_time newTime)
  else throw ordering_violation.

Definition addTStep (step : int64_t) : method unit :=
  tm ← this;
  addTime (forward (vec_back (m_timeList tm)) step).

Definition size (tm : TimeMap) : size_t := vec_size (m_timeList tm).

Definition numTimesteps (tm : TimeMap) : size_t :=
  to_size_t (Z.of_N (vec_size (m_timeList tm)) - 1).

(** [TimeMap::last] *)
Definition last_step (tm : TimeMap) : size_t := numTimesteps tm.

(** [TimeMap::operator[]] *)
Definition at_index (tm : TimeMap) (index : size_t) : result time_t :=
  if bool_decide (index < vec_size (m_timeList tm))%N
  then Ok (vec_at (m_timeList tm) (N.to_nat index))
  else Throw index_out_of_range.

Definition getStartTime (tm : TimeMap) (tStepIdx : size_t) : result time_t :=
  at_index tm tStepIdx.

Definition getEndTime (tm : TimeMap) : result time_t :=
  at_index tm (to_size_t (Z.of_N (size tm) - 1)).

Definition getTotalTime (tm : TimeMap) : float :=
  if bool_decide (vec_size (m_timeList tm) < 2)%N then 0%float
  else
    let deltaT := to_int64 (vec_back (m_timeList tm) - vec_at (m_timeList tm) 0) in
    static_cast_double deltaT.

(** The month-name table. [std::map::insert] keeps an entry that is
    already there. *)
Definition std_map_insert (m : gmap string Z) (kv : string * Z)
    : gmap string Z :=
  match m !! kv.1 with
  | Some _ => m
  | None => <[kv.1 := kv.2]> m
  end.

Definition std_map_at (m : gmap string Z) (k : string) : result Z :=
  match m !! k with
  | Some v => Ok v
  | None => Throw out_of_range
  end.

Definition monthIndices_entries : list (string * Z) :=
  [ ("JAN", 1); ("FEB", 2); ("MAR", 3); ("APR", 4); ("MAI", 5); ("MAY", 5);
    ("JUN", 6); ("JUL", 7); ("JLY", 7); ("AUG", 8); ("SEP", 9); ("OCT", 10);
    ("OKT", 10); ("NOV", 11); ("DEC", 12); ("DES", 12) ].

Definition eclipseMonthIndices : gmap string Z :=
  foldl std_map_insert ∅ monthIndices_entries.

(** The arguments of the call of [mkdatetime] are evaluated in the order
    in which they are written. *)
Definition timeFromEclipse (dateRecord : DeckRecord) : result time_t :=
  dayItem ← getItem dateRecord 0;
  monthItem ← getItem dateRecord 1;
  yearItem ← getItem dateRecord 2;
  timeItem ← getItem dateRecord 3;
  '(hour, min, second) ←
    (if hasValue timeItem 0 then
       s ← get_string timeItem 0;
       Ok (default (0, 0, 0) (sscanf_hms s))
     else Ok (0, 0, 0));
  year ← get_int yearItem 0;
  monthName ← get_string monthItem 0;
  month ← std_map_at eclipseMonthIndices monthName;
  day ← get_int dayItem 0;
  mkdatetime year month day hour min second.

Definition addFromDATESKeyword (DATESKeyword : DeckKeyword) : method unit :=
  if bool_decide (name DATESKeyword ≠ "DATES")
  then throw (invalid_argument "Method requires DATES keyword input.")
  else
    foreach (seq 0 (keyword_size DATESKeyword)) (λ recordIndex,
      record ← lift (getRecord DATESKeyword recordIndex);
      nextTime ← lift (timeFromEclipse record);
      addTime nextTime).

Definition addFromTSTEPKeyword (TSTEPKeyword : DeckKeyword) : method unit :=
  if bool_decide (name TSTEPKeyword ≠ "TSTEP")
  then throw (invalid_argument "Method requires TSTEP keyword input.")
  else
    record ← lift (getRecord TSTEPKeyword 0);
    item ← lift (getItem record 0);
    foreach (seq 0 (item_size item)) (λ itemIndex,
      days ← lift (get_double item itemIndex);
      let seconds := static_cast_int64 (days * 24 * 60 * 60)%float in
      addTStep seconds).

(** The body of [TimeMap::TimeMap(const Deck&)]. *)
Definition TimeMap_ctor_Deck_body (deck : Deck) : method unit :=
  (if hasKeyword deck "START" then
     keyword ← lift (getKeyword deck "START");
     record ← lift (getRecord keyword 0);
     t ← lift (timeFromEclipse record);
     update (push_time t)
   else
     time ← lift (mkdate 1983 1 1);
     update (push_time time));;
  foreach deck (λ keyword,
    if bool_decide (name keyword ≠ "TSTEP" ∧ name keyword ≠ "DATES")
    then mret tt
    else if bool_decide (name keyword = "TSTEP")
    then addFromTSTEPKeyword keyword
    else if bool_decide (name keyword = "DATES")
    then addFromDATESKeyword keyword
    else mret tt).

(** [TimeMap::TimeMap(const Deck&)]: an exception in the body leaves no
    object. *)
Definition TimeMap_ctor_Deck (deck : Deck) : result TimeMap :=
  match TimeMap_ctor_Deck_body deck TimeMap_empty with
  | (tm, Ok _) => Ok tm
  | (_, Throw e) => Throw e
  end.

(** [assert] with assertions enabled: a failed assertion aborts the
    program. The abort is no exception that a caller can catch; it is the
    outcome [assertion_failure], apart from the exceptions that the
    methods throw. A build without assertions ([NDEBUG]) has no check at
    all and is not modelled. *)
Definition assert (b : bool) : result unit :=
  if b then Ok tt else Throw assertion_failure.

Definition getTimeStepLength (tm : TimeMap) (tStepIdx : size_t)
    : result float :=
  assert (bool_decide (tStepIdx < numTimesteps tm)%N);;
  let t1 := vec_at (m_timeList tm) (N.to_nat tStepIdx) in
  let t2 := vec_at (m_timeList tm) (N.to_nat (to_size_t (Z.of_N tStepIdx + 1))) in
  let deltaT := to_int64 (t2 - t1) in
  Ok (static_cast_double deltaT).

Definition getTimePassedUntil (tm : TimeMap) (tLevelIdx : size_t)
    : result float :=
  assert (bool_decide (tLevelIdx < vec_size (m_timeList tm))%N);;
  let t1 := vec_at (m_timeList tm) 0 in
  let t2 := vec_at (m_timeList tm) (N.to_nat tLevelIdx) in
  let deltaT := to_int64 (t2 - t1) in
  Ok (static_cast_double deltaT).

Definition getFirstTimestepMonths (tm : TimeMap) : list size_t :=
  m_first_timestep_months tm.

Definition getFirstTimestepYears (tm : TimeMap) : list size_t :=
  m_first_timestep_years tm.

(** [vec] is assumed to be sorted. *)
Definition closest (vec : list size_t) (value : size_t) : size_t :=
  let ci := std_lower_bound vec value in
  if bool_decide (ci ≠ vec_end vec) then vec_at vec ci else 0%N.

(** The remainder [dist % frequency] is taken in [size_t]. A [frequency]
    of zero divides by zero in the source; the one caller passes a
    [frequency] above one, and the model is that of the source for every
    [frequency] other than zero. *)
Definition isTimestepInFreqSequence (tm : TimeMap)
    (timestep start_timestep frequency : size_t) (years : bool) : bool :=
  let timesteps :=
    if years then getFirstTimestepYears tm else getFirstTimestepMonths tm in
  let ci_timestep := std_find timesteps timestep in
  let ci_start_timestep := std_find timesteps start_timestep in
  let '(ci_start_timestep, start_ts_in_timesteps) :=
    if bool_decide (ci_start_timestep ≠ vec_end timesteps)
    then (ci_start_timestep, true)
    else
      let new_start := closest timesteps start_timestep in
      if bool_decide (0%N ≠ new_start)
      then (std_find timesteps new_start, true)
      else (ci_start_timestep, false) in
  if start_ts_in_timesteps : bool then
    if bool_decide (ci_start_timestep ≤ ci_timestep)%nat then
      let dist :=
        to_int (Z.of_nat ci_timestep - Z.of_nat ci_start_timestep + 1) in
      bool_decide ((to_size_t dist mod frequency)%N = 0%N)
    else false
  else false.

Definition isTimestepInFirstOfMonthsYearsSequence (tm : TimeMap)
    (timestep : size_t) (years : bool) (start_timestep frequency : size_t)
    : bool :=
  let timesteps :=
    if years then getFirstTimestepYears tm else getFirstTimestepMonths tm in
  let ci_timestep := std_find timesteps timestep in
  if bool_decide (ci_timestep ≠ vec_end timesteps) then
    if bool_decide (frequency ≤ 1)%N then true
    else isTimestepInFreqSequence tm timestep start_timestep frequency years
  else false.

(** ** Notions of the specification *)

(** The UTC calendar month number and year of a timestamp. *)
Definition utc_month (t : time_t) : Z := (util_set_date_values_utc t).1.2.
Definition utc_year (t : time_t) : Z := (util_set_date_values_utc t).2.

(** A sequence is strictly increasing when an element at a later position
    is larger. *)
Definition strictly_increasing {A} (R : relation A) (l : list A) : Prop :=
  ∀ i j x y, l !! i = Some x → l !! j = Some y → (i < j)%nat → R x y.

(** A boundary index sequence of a timeline of [len] timestamps. *)
Definition boundary_indices (len : nat) (S : list size_t) : Prop :=
  strictly_increasing N.lt S ∧ Forall (λ i, 0 < i < N.of_nat len)%N S.

Definition TimeMap_invariant (tm : TimeMap) : Prop :=
  strictly_increasing Z.lt (m_timeList tm)
  ∧ (1 ≤ length (m_timeList tm))%nat
  ∧ boundary_indices (length (m_timeList tm)) (m_first_timestep_months tm)
  ∧ boundary_indices (length (m_timeList tm)) (m_first_timestep_years tm).

(** The timeline after a successful append of [t]: the new entry has the
    index [vec_size (m_timeList tm)], and each index vector grows by that
    index or stays as it is. *)
Definition appended (t : time_t) (tm : TimeMap) : TimeMap :=
  let p := vec_back (m_timeList tm) in
  let i := vec_size (m_timeList tm) in
  {| m_timeList := m_timeList tm ++ [t];
     m_first_timestep_years :=
       m_first_timestep_years tm
       ++ (if bool_decide (utc_year t ≠ utc_year p) then [i] else []);
     m_first_timestep_months :=
       m_first_timestep_months tm
       ++ (if bool_decide (utc_month t ≠ utc_month p) then [i] else []) |}.

(** A method keeps a property of the object, whether it returns or
    throws. *)
Definition preserves {A} (P : TimeMap → Prop) (c : method A) : Prop :=
  ∀ tm, P tm → P (c tm).1.

(** When a method that starts in a state of [P] returns, the object is in
    a state of [Q]. *)
Definition returns_with {A} (P : TimeMap → Prop) (c : method A)
    (Q : TimeMap → Prop) : Prop :=
  ∀ tm tm' a, P tm → c tm = (tm', Ok a) → Q tm'.

(** A value of [time_t]: an integer of the 64-bit range. *)
Definition time_t_value (t : Z) : Prop := - 2 ^ 63 ≤ t < 2 ^ 63.

(** The integer that a double equals, when it equals one. *)
Definition integer_value (x : float) : option Z :=
  match Prim2SF x with
  | S754_zero _ => Some 0
  | S754_finite s m e =>
      if bool_decide (0 ≤ e) then
        Some (if s then - (Z.pos m * 2 ^ e) else Z.pos m * 2 ^ e)
      else if bool_decide (Z.pos m mod 2 ^ (- e) = 0) then
        Some (if s then - (Z.pos m / 2 ^ (- e)) else Z.pos m / 2 ^ (- e))
      else None
  | _ => None
  end.

(** The seconds that the TSTEP loop computes from a day-count. *)
Definition seconds_of_days (days : float) : int64_t :=
  static_cast_int64 (days * 24 * 60 * 60)%float.

(** The sums that a run of steps gives after the timestamp [t]: the
    timestamps that the steps append, when the sums are values of
    [time_t]. *)
Fixpoint timestamps_after (t : time_t) (steps : list int64_t) : list time_t :=
  match steps with
  | [] => []
  | s :: steps' => (t + s) :: timestamps_after (t + s) steps'
  end.

(** The exact value of [days × 86400] truncated to an integer, for a
    finite double [days]. *)
Definition trunc_days_times_86400 (days : float) : Z :=
  match Prim2SF days with
  | S754_finite s m e =>
      let a := if bool_decide (0 ≤ e) then Z.pos m * 2 ^ e * 86400
               else (Z.pos m * 86400) / 2 ^ (- e) in
      if s then - a else a
  | _ => 0
  end.

(** The boundary index set of a periodic-boundary query. *)
Definition boundary_set (tm : TimeMap) (usingYears : bool) : list size_t :=
  if usingYears then m_first_timestep_years tm else m_first_timestep_months tm.

(** [isReportBoundary] of the specification. *)
Definition isReportBoundary (tm : TimeMap) (index : size_t) (usingYears : bool)
    (periodStartIndex frequency : size_t) : bool :=
  isTimestepInFirstOfMonthsYearsSequence tm index usingYears
    periodStartIndex frequency.

(** The anchor of the rank counting: [periodStartIndex] when it is a
    boundary, otherwise the smallest boundary that is not below it. *)
Definition smallest_at_least (S : list size_t) (v a : size_t) : Prop :=
  a ∈ S ∧ (v ≤ a)%N ∧ ∀ x, x ∈ S → (v ≤ x)%N → (a ≤ x)%N.

Definition is_anchor (S : list size_t) (periodStartIndex a : size_t) : Prop :=
  (periodStartIndex ∈ S ∧ a = periodStartIndex)
  ∨ ((periodStartIndex ∉ S) ∧ smallest_at_least S periodStartIndex a).

(** [r] is the 1-based rank of [x] within [S]. *)
Definition rank_in (S : list size_t) (x : size_t) (r : nat) : Prop :=
  (1 ≤ r)%nat ∧ S !! (r - 1)%nat = Some x.

(** The rank of [index] counted from the rank of [anchor], the anchor
    counting as one, exists and is a multiple of [frequency]. *)
Definition rank_from_anchor_is_multiple (S : list size_t)
    (anchor index frequency : size_t) : Prop :=
  ∃ ra ri : nat,
    rank_in S anchor ra ∧ rank_in S index ri ∧ (ra ≤ ri)%nat
    ∧ (N.of_nat (ri - ra + 1) mod frequency = 0)%N.

(** A date record: day, month token, year and the optional time of day. *)
Definition date_record (day : Z) (month : string) (year : Z)
    (time : list string) : DeckRecord :=
  [IntItem [day]; StringItem [month]; IntItem [year]; StringItem time].

(** A TSTEP keyword with the listed day-counts. *)
Definition TSTEP_keyword (days : list float) : DeckKeyword :=
  mkDeckKeyword "TSTEP" [[DoubleItem days]].

(** A START keyword with one date record. *)
Definition START_keyword (record : DeckRecord) : DeckKeyword :=
  mkDeckKeyword "START" [record].

(** The double that the decimal literal 0.01 denotes. *)
Definition one_hundredth : float := 0x1.47ae147ae147bp-7%float.

(** A timeline extends another when each of its three vectors starts with
    the vector of the other: entries are added at the back and nothing is
    removed or changed. *)
Definition extends (tm tm' : TimeMap) : Prop :=
  m_timeList tm `prefix_of` m_timeList tm'
  ∧ m_first_timestep_months tm `prefix_of` m_first_timestep_months tm'
  ∧ m_first_timestep_years tm `prefix_of` m_first_timestep_years tm'.



(** A DATES keyword with the listed date records. *)
Definition DATES_keyword (records : list DeckRecord) : DeckKeyword :=
  mkDeckKeyword "DATES" records.

(** The hour, minute and second that [timeFromEclipse] takes from the
    time item of a date record: midnight when the item has no value or
    its value does not scan. *)
Definition time_of_day (time : list string) : Z * Z * Z :=
  match time with
  | s :: _ => default (0, 0, 0) (sscanf_hms s)
  | [] => (0, 0, 0)
  end.

(** The double that a whole number of days denotes (exact below 2^53). *)
Definition whole_days (n : Z) : float := PrimFloat.of_uint63 (Uint63.of_Z n).

(** [f] holds on the [count] integers from [start] on. *)
Fixpoint holds_from (f : Z → bool) (start : Z) (count : nat) : bool :=
  match count with
  | O => true
  | S count' => f start && holds_from f (start + 1) count'
  end.

(** The date [y]-[m]-[d] is earlier in the calendar than [y']-[m']-[d']. *)
Definition date_before (y m d y' m' d' : Z) : Prop :=
  y < y' ∨ (y = y' ∧ (m < m' ∨ (m = m' ∧ d < d'))).

(** * Properties *)

(** ** Machine numbers *)

Lemma to_int64_value (z : Z) : time_t_value z → to_int64 z = z.
Proof.
  unfold time_t_value, to_int64. intros Hz.
  rewrite Z.mod_small by lia. lia.
Qed.

Lemma to_int64_range (z : Z) : time_t_value (to_int64 z).
Proof.
  unfold time_t_value, to_int64.
  pose proof (Z.mod_pos_bound (z + 2 ^ 63) (2 ^ 64) ltac:(lia)). lia.
Qed.

(** Wrapping an operand of a sum does not change the wrapped sum. *)
Lemma to_int64_add_l (a b : Z) : to_int64 (to_int64 a + b) = to_int64 (a + b).
Proof.
  unfold to_int64. f_equal.
  replace ((a + 2 ^ 63) mod 2 ^ 64 - 2 ^ 63 + b + 2 ^ 63)
    with ((a + 2 ^ 63) mod 2 ^ 64 + b) by lia.
  rewrite Zplus_mod_idemp_l. f_equal. lia.
Qed.

Lemma to_int64_add_r (a b : Z) : to_int64 (a + to_int64 b) = to_int64 (a + b).
Proof. by rewrite Z.add_comm, to_int64_add_l, Z.add_comm. Qed.

Lemma forward_value (t : time_t) (seconds : int64_t) :
  time_t_value (t + seconds) → forward t seconds = t + seconds.
Proof. apply to_int64_value. Qed.

(** The number of binary digits of a mantissa. *)
Lemma digits2_pos_size (p : positive) : digits2_pos p = Pos.size p.
Proof. induction p; simpl; congruence. Qed.

Lemma digits2_pos_bound (p : positive) :
  Z.pos p < 2 ^ 53 → Z.pos (digits2_pos p) ≤ 53.
Proof.
  intros Hp. rewrite digits2_pos_size.
  pose proof (Pos.size_le p) as Hle.
  destruct (decide (Z.pos (Pos.size p) ≤ 53)) as [|Hn]; [done|exfalso].
  assert (H54 : 2 ^ 54 ≤ 2 ^ Z.pos (Pos.size p)).
  { apply Z.pow_le_mono_r; lia. }
  assert (Hsz : Z.pos (2 ^ Pos.size p) ≤ Z.pos p~0) by lia.
  rewrite Pos2Z.inj_pow in Hsz. lia.
Qed.

Lemma digits2_pos_iter_xO (p k : positive) :
  digits2_pos (Pos.iter xO p k) = (digits2_pos p + k)%positive.
Proof.
  induction k using Pos.peano_ind.
  - simpl. lia.
  - rewrite Pos.iter_succ. simpl. rewrite IHk. lia.
Qed.

Lemma iter_xO_value (p k : positive) :
  Z.pos (Pos.iter xO p k) = Z.pos p * 2 ^ Z.pos k.
Proof.
  induction k using Pos.peano_ind.
  - simpl. lia.
  - rewrite Pos.iter_succ, Pos2Z.inj_xO, IHk, Pos2Z.inj_succ, Z.pow_succ_r by lia.
    lia.
Qed.

(** An integer below 2^53 is rounded to itself: its mantissa is shifted
    to 53 digits and nothing is cut off. *)
Lemma binary_round_exact (s : bool) (p : positive) :
  Z.pos p < 2 ^ 53 →
  ∃ m e, binary_round prec emax s p 0 = S754_finite s m e
    ∧ - 52 ≤ e ≤ 0
    ∧ Z.pos m = Z.pos p * 2 ^ (- e)
    ∧ valid_binary (S754_finite s m e) = true.
Proof.
  intros Hp. pose proof (digits2_pos_bound p Hp) as Hd.
  assert (Hd1 : 1 ≤ Z.pos (digits2_pos p)) by lia.
  unfold binary_round.
  assert (Hfexp : ∀ d, 1 ≤ d ≤ 53 → fexp prec emax d = d - 53).
  { intros d Hdd. unfold fexp, emin, prec, emax. lia. }
  rewrite Z.add_0_r, Hfexp by lia.
  assert (Haux : ∀ mz ez, Z.pos (digits2_pos mz) = 53 → - 52 ≤ ez ≤ 0 →
     binary_round_aux prec emax s (Z.pos mz) ez loc_Exact = S754_finite s mz ez
     ∧ valid_binary (S754_finite s mz ez) = true).
  { intros mz ez Hmz Hez.
    assert (Hshr : shr_fexp prec emax (Z.pos mz) ez loc_Exact
                   = ({| shr_m := Z.pos mz; shr_r := false; shr_s := false |}, ez)).
    { unfold shr_fexp. cbn [Zdigits2 shr_record_of_loc]. rewrite Hmz.
      rewrite Hfexp by lia. replace (53 + ez - 53 - ez) with 0 by lia.
      reflexivity. }
    unfold binary_round_aux. rewrite Hshr.
    cbn [shr_m loc_of_shr_record round_nearest_even].
    rewrite Hshr. cbn [shr_m].
    assert (Hle : (ez <=? emax - prec) = true)
      by (apply Z.leb_le; unfold emax, prec; lia).
    rewrite Hle. split; [done|].
    cbn [SpecFloat.valid_binary]. unfold bounded, canonical_mantissa.
    rewrite Hle, Hmz, Hfexp by lia.
    rewrite andb_true_r. apply Z.eqb_eq. lia. }
  unfold shl_align.
  destruct (Z.pos (digits2_pos p) - 53 - 0) as [|k|k] eqn:Hk; [|lia|].
  - destruct (Haux p 0) as [Hr Hv]; [lia|lia|].
    exists p, 0. rewrite Hr. split_and!; try done; lia.
  - assert (Hkk : Z.pos k = 53 - Z.pos (digits2_pos p)) by lia.
    destruct (Haux (Pos.iter xO p k) (Z.pos (digits2_pos p) - 53)) as [Hr Hv].
    { rewrite digits2_pos_iter_xO. lia. }
    { lia. }
    eexists _, _. split; [exact Hr|]. split; [lia|]. split; [|exact Hv].
    rewrite iter_xO_value. f_equal. f_equal. lia.
Qed.

(** [static_cast<double>] is exact on the integers of at most 2^53 in
    magnitude. *)
Lemma static_cast_double_exact (z : Z) :
  - 2 ^ 53 ≤ z ≤ 2 ^ 53 → integer_value (static_cast_double z) = Some z.
Proof.
  intros Hz.
  destruct (decide (z = 2 ^ 53)) as [->|Hhi]; [by vm_compute|].
  destruct (decide (z = - 2 ^ 53)) as [->|Hlo]; [by vm_compute|].
  unfold integer_value, static_cast_double.
  destruct z as [|p|p]; [by vm_compute| |].
  - destruct (binary_round_exact false p) as (m & e & Hr & He & Hm & Hv); [lia|].
    cbn [binary_normalize]. rewrite Hr, Prim2SF_SF2Prim by exact Hv.
    case_bool_decide as H0.
    + replace e with 0 in * by lia. f_equal. lia.
    + rewrite Hm. rewrite Z.mod_mul, Z.div_mul by lia.
      by rewrite bool_decide_true.
  - destruct (binary_round_exact true p) as (m & e & Hr & He & Hm & Hv); [lia|].
    cbn [binary_normalize]. rewrite Hr, Prim2SF_SF2Prim by exact Hv.
    case_bool_decide as H0.
    + replace e with 0 in * by lia. f_equal. lia.
    + rewrite Hm. rewrite Z.mod_mul, Z.div_mul by lia.
      rewrite bool_decide_true by done. f_equal.
Qed.

(** ** Vectors *)

Lemma vec_back_last {A} `{Inhabited A} (v : list A) (x : A) :
  last v = Some x → vec_back v = x.
Proof. unfold vec_back. by intros ->. Qed.

Lemma vec_back_push_back {A} `{Inhabited A} (v : list A) (x : A) :
  vec_back (v ++ [x]) = x.
Proof. apply vec_back_last, last_snoc. Qed.

Lemma strictly_increasing_nil {A} (R : relation A) : strictly_increasing R [].
Proof. intros i j x y Hi. by rewrite lookup_nil in Hi. Qed.

Lemma strictly_increasing_snoc {A} (R : relation A) (l : list A) (x : A) :
  strictly_increasing R l → Forall (λ y, R y x) l →
  strictly_increasing R (l ++ [x]).
Proof.
  intros Hl Hx i j a b Hi Hj Hij.
  apply lookup_lt_Some in Hj as Hjlen. rewrite length_app in Hjlen. simpl in Hjlen.
  rewrite lookup_app_l in Hi by lia.
  destruct (decide (j < length l)%nat) as [Hlt|Hge].
  - rewrite lookup_app_l in Hj by done. eauto.
  - rewrite lookup_app_r in Hj by lia.
    replace (j - length l)%nat with 0%nat in Hj by lia. simpl in Hj.
    inversion Hj; subst b.
    rewrite Forall_forall in Hx. apply Hx. by eapply list_elem_of_lookup_2.
Qed.

Lemma strictly_increasing_below_last (l : list Z) (L : Z) :
  strictly_increasing Z.lt l → last l = Some L → Forall (λ y, y ≤ L) l.
Proof.
  intros Hl HL. apply Forall_forall. intros y Hy.
  apply list_elem_of_lookup in Hy as [i Hi].
  rewrite last_lookup in HL.
  apply lookup_lt_Some in Hi as Hlen.
  destruct (decide (i = Nat.pred (length l))) as [->|Hne].
  - rewrite Hi in HL. inversion HL. lia.
  - assert (y < L) by (eapply Hl; eauto; lia). lia.
Qed.

(** ** The method monad *)

Lemma bind_run {A B} (f : A → method B) (c : method A) (tm : TimeMap) :
  (c ≫= f) tm =
  match c tm with
  | (tm', Ok a) => f a tm'
  | (tm', Throw e) => (tm', Throw e)
  end.
Proof. reflexivity. Qed.

Lemma lift_run {A} (r : result A) (tm : TimeMap) : lift r tm = (tm, r).
Proof. reflexivity. Qed.

Lemma ret_run {A} (a : A) (tm : TimeMap) :
  (mret a : method A) tm = (tm, Ok a).
Proof. reflexivity. Qed.

Lemma preserves_ret {A} (P : TimeMap → Prop) (a : A) : preserves P (mret a).
Proof. by intros tm. Qed.

Lemma preserves_throw {A} (P : TimeMap → Prop) (e : exception) :
  preserves P (throw (A:=A) e).
Proof. by intros tm. Qed.

Lemma preserves_lift {A} (P : TimeMap → Prop) (r : result A) :
  preserves P (lift r).
Proof. by intros tm. Qed.

Lemma preserves_bind {A B} (P : TimeMap → Prop) (c : method A)
    (f : A → method B) :
  preserves P c → (∀ a, preserves P (f a)) → preserves P (c ≫= f).
Proof.
  intros Hc Hf tm Htm. rewrite bind_run.
  specialize (Hc tm Htm). destruct (c tm) as [tm' [a|e]]; simpl in *.
  - by apply Hf.
  - done.
Qed.

Lemma preserves_returns_with {A} (P : TimeMap → Prop) (c : method A) :
  preserves P c → returns_with P c P.
Proof. intros Hc tm tm' a Htm Hrun. specialize (Hc tm Htm). by rewrite Hrun in Hc. Qed.

Lemma returns_with_lift {A} (P : TimeMap → Prop) (r : result A) :
  returns_with P (lift r) P.
Proof. apply preserves_returns_with, preserves_lift. Qed.

Lemma returns_with_update (P Q : TimeMap → Prop) (f : TimeMap → TimeMap) :
  (∀ tm, P tm → Q (f tm)) → returns_with P (update f) Q.
Proof. intros Hf tm tm' a Htm [= <-]. by apply Hf. Qed.

Lemma returns_with_bind {A B} (P Q R : TimeMap → Prop) (c : method A)
    (f : A → method B) :
  returns_with P c Q → (∀ a, returns_with Q (f a) R) →
  returns_with P (c ≫= f) R.
Proof.
  intros Hc Hf tm tm' b Htm. rewrite bind_run.
  destruct (c tm) as [tm1 [a|e]] eqn:Hrun; [|done].
  intros Hrun'. eapply Hf; [|exact Hrun']. by eapply Hc.
Qed.

Lemma preserves_foreach {A} (P : TimeMap → Prop) (l : list A)
    (body : A → method unit) :
  (∀ x, preserves P (body x)) → preserves P (foreach l body).
Proof.
  intros Hbody. induction l as [|x l IH]; simpl.
  - apply preserves_ret.
  - apply preserves_bind; [apply Hbody | intros _; apply IH].
Qed.

(** ** Appending a timestamp *)

(** [addTime] either throws and writes nothing, or produces [appended]. *)
Lemma addTime_run (newTime : time_t) (tm : TimeMap) :
  addTime newTime tm =
  if bool_decide (newTime > vec_back (m_timeList tm))
  then (appended newTime tm, Ok tt)
  else (tm, Throw ordering_violation).
Proof.
  unfold addTime. rewrite bind_run. unfold this. cbv beta iota zeta.
  case_bool_decide as Hgt; [|reflexivity].
  unfold appended, utc_month, utc_year.
  destruct (util_set_date_values_utc newTime) as [[nd nm] ny].
  destruct (util_set_date_values_utc (vec_back (m_timeList tm))) as [[ld lm] ly].
  destruct tm as [times years months].
  repeat case_bool_decide; try done; cbn; rewrite ?app_nil_r; reflexivity.
Qed.

Lemma addTStep_run (step : int64_t) (tm : TimeMap) :
  addTStep step tm = addTime (forward (vec_back (m_timeList tm)) step) tm.
Proof. reflexivity. Qed.

Lemma appended_invariant (t : time_t) (tm : TimeMap) :
  TimeMap_invariant tm → t > vec_back (m_timeList tm) →
  TimeMap_invariant (appended t tm).
Proof.
  intros (Htimes & Hlen & [Hms Hmb] & [Hys Hyb]) Hgt.
  destruct (last (m_timeList tm)) as [L|] eqn:HL;
    [|apply last_None in HL; rewrite HL in Hlen; simpl in Hlen; lia].
  rewrite (vec_back_last _ _ HL) in Hgt.
  assert (Hgrow : ∀ S (b : bool),
    boundary_indices (length (m_timeList tm)) S →
    boundary_indices (length (m_timeList tm ++ [t]))
      (S ++ (if b then [vec_size (m_timeList tm)] else []))).
  { intros S b [Hs Hb]. rewrite length_app. simpl.
    assert (Hb' : Forall (λ i, 0 < i < N.of_nat (length (m_timeList tm) + 1))%N S).
    { eapply Forall_impl; [exact Hb|]. simpl. intros; lia. }
    destruct b; [|by rewrite app_nil_r].
    split.
    - apply strictly_increasing_snoc; [done|].
      eapply Forall_impl; [exact Hb|]. unfold vec_size. simpl. intros; lia.
    - apply Forall_app. split; [done|].
      apply Forall_singleton. unfold vec_size. lia. }
  unfold TimeMap_invariant, appended. simpl. repeat split.
  - apply strictly_increasing_snoc; [done|].
    eapply Forall_impl; [by apply strictly_increasing_below_last|].
    simpl. intros; lia.
  - rewrite length_app. simpl. lia.
  - by apply Hgrow.
  - by apply Hgrow.
  - by apply Hgrow.
  - by apply Hgrow.
Qed.

Lemma addTime_preserves (newTime : time_t) :
  preserves TimeMap_invariant (addTime newTime).
Proof.
  intros tm Htm. rewrite addTime_run.
  case_bool_decide; simpl; [by apply appended_invariant | done].
Qed.

Lemma addTStep_preserves (step : int64_t) :
  preserves TimeMap_invariant (addTStep step).
Proof. intros tm Htm. rewrite addTStep_run. by apply addTime_preserves. Qed.

Lemma addFromTSTEPKeyword_preserves (keyword : DeckKeyword) :
  preserves TimeMap_invariant (addFromTSTEPKeyword keyword).
Proof.
  unfold addFromTSTEPKeyword. case_bool_decide; [apply preserves_throw|].
  apply preserves_bind; [apply preserves_lift | intros record].
  apply preserves_bind; [apply preserves_lift | intros item].
  apply preserves_foreach. intros itemIndex.
  apply preserves_bind; [apply preserves_lift | intros days].
  apply addTStep_preserves.
Qed.

Lemma addFromDATESKeyword_preserves (keyword : DeckKeyword) :
  preserves TimeMap_invariant (addFromDATESKeyword keyword).
Proof.
  unfold addFromDATESKeyword. case_bool_decide; [apply preserves_throw|].
  apply preserves_foreach. intros recordIndex.
  apply preserves_bind; [apply preserves_lift | intros record].
  apply preserves_bind; [apply preserves_lift | intros nextTime].
  apply addTime_preserves.
Qed.

Lemma TimeMap_ctor_invariant (startTime : time_t) :
  TimeMap_invariant (TimeMap_ctor startTime).
Proof.
  unfold TimeMap_invariant, boundary_indices, TimeMap_ctor. simpl.
  split_and!; try apply Forall_nil; try lia.
  - apply (strictly_increasing_snoc Z.lt []); [apply strictly_increasing_nil | done].
  - apply strictly_increasing_nil.
  - apply strictly_increasing_nil.
Qed.

Lemma TimeMap_ctor_Deck_body_invariant (deck : Deck) :
  returns_with (λ tm, tm = TimeMap_empty) (TimeMap_ctor_Deck_body deck)
    TimeMap_invariant.
Proof.
  assert (Hpush : ∀ t, returns_with (λ tm, tm = TimeMap_empty)
                         (update (push_time t)) TimeMap_invariant).
  { intros t. apply returns_with_update. intros tm ->.
    apply TimeMap_ctor_invariant. }
  unfold TimeMap_ctor_Deck_body.
  eapply returns_with_bind.
  - destruct (hasKeyword deck "START").
    + eapply returns_with_bind; [apply returns_with_lift | intros keyword].
      eapply returns_with_bind; [apply returns_with_lift | intros record].
      eapply returns_with_bind; [apply returns_with_lift | intros t].
      apply Hpush.
    + eapply returns_with_bind; [apply returns_with_lift | intros time].
      apply Hpush.
  - intros _. apply preserves_returns_with, preserves_foreach.
    intros keyword.
    repeat case_bool_decide;
      auto using preserves_ret, addFromTSTEPKeyword_preserves,
        addFromDATESKeyword_preserves.
Qed.

(** ** Claims on [addTime] and [addTStep] *)

(** C3: for a timeline whose last timestamp is [L] and a timestamp
    [t ≤ L], [addTime t] throws the ordering violation and the object is
    unchanged: the timestamp list, the first-of-month indices and the
    first-of-year indices are those before the call. *)
Theorem addTime_not_increasing_fails (tm : TimeMap) (L t : time_t) :
  last (m_timeList tm) = Some L → t ≤ L →
  (addTime t tm).2 = Throw ordering_violation
  ∧ (addTime t tm).1 = tm
  ∧ m_timeList (addTime t tm).1 = m_timeList tm
  ∧ m_first_timestep_months (addTime t tm).1 = m_first_timestep_months tm
  ∧ m_first_timestep_years (addTime t tm).1 = m_first_timestep_years tm.
Proof.
  intros HL Hle. rewrite addTime_run, (vec_back_last _ _ HL).
  rewrite bool_decide_false by lia. done.
Qed.

Lemma addTime_not_increasing_fails_witness :
  last (m_timeList (mkTimeMap [100; 200] [] [])) = Some 200 ∧ 150 ≤ 200
  ∧ (addTime 150 (mkTimeMap [100; 200] [] [])).2 = Throw ordering_violation
  ∧ (addTime 150 (mkTimeMap [100; 200] [] [])).1 = mkTimeMap [100; 200] [] [].
Proof.
  split; [reflexivity|]. split; [lia|].
  pose proof (addTime_not_increasing_fails (mkTimeMap [100; 200] [] []) 200 150
                eq_refl ltac:(lia)) as (Hthrow & Hsame & _).
  split; [exact Hthrow | exact Hsame].
Defined.



(** C4: the constructors establish and [addTime] and [addTStep] keep the
    invariant: the timestamps are strictly increasing and there is at
    least one, and the first-of-month and first-of-year vectors are
    strictly increasing with every element [i] such that
    [0 < i < length]. A method keeps it whether it returns or throws. *)
Theorem TimeMap_operations_keep_invariant :
  (∀ startTime, TimeMap_invariant (TimeMap_ctor startTime))
  ∧ (∀ deck tm, TimeMap_ctor_Deck deck = Ok tm → TimeMap_invariant tm)
  ∧ (∀ newTime, preserves TimeMap_invariant (addTime newTime))
  ∧ (∀ step, preserves TimeMap_invariant (addTStep step)).
Proof.
  split_and!.
  - apply TimeMap_ctor_invariant.
  - intros deck tm. unfold TimeMap_ctor_Deck.
    destruct (TimeMap_ctor_Deck_body deck TimeMap_empty) as [tm' [u|e]] eqn:Hrun;
      [|done].
    intros [= ->]. by eapply TimeMap_ctor_Deck_body_invariant.
  - apply addTime_preserves.
  - apply addTStep_preserves.
Qed.

Lemma TimeMap_operations_keep_invariant_witness :
  TimeMap_invariant (TimeMap_ctor 0)
  ∧ TimeMap_invariant (addTime 5000000 (TimeMap_ctor 0)).1
  ∧ TimeMap_invariant (addTStep (-1) (TimeMap_ctor 0)).1.
Proof.
  destruct TimeMap_operations_keep_invariant as (Hctor & _ & Hadd & Hstep).
  split; [apply Hctor|].
  split; [apply Hadd, Hctor | apply Hstep, Hctor].
Defined.

(** ** The TSTEP loop *)

Lemma foreach_seq_checked {A} (l pre : list A) (body : A → method unit)
    (tm : TimeMap) :
  foreach (seq (length pre) (length l))
    (λ i, x ← lift (checked ((pre ++ l) !! i)); body x) tm
  = foreach l body tm.
Proof.
  revert pre tm. induction l as [|x l IH]; intros pre tm; [done|].
  cbn [length seq foreach]. rewrite !bind_run, lift_run.
  rewrite list_lookup_middle by done. cbn [checked].
  destruct (body x tm) as [tm' [u|e]]; [|done].
  specialize (IH (pre ++ [x]) tm').
  rewrite <- app_assoc, length_app in IH. cbn [length app] in IH.
  by replace (length pre + 1)%nat with (S (length pre)) in IH by lia.
Qed.

Lemma addFromTSTEPKeyword_run (days : list float) (items : DeckRecord)
    (recs : list DeckRecord) (tm : TimeMap) :
  addFromTSTEPKeyword (mkDeckKeyword "TSTEP" ((DoubleItem days :: items) :: recs)) tm
  = foreach days (λ d, addTStep (seconds_of_days d)) tm.
Proof.
  unfold addFromTSTEPKeyword. cbn [name]. rewrite bool_decide_false by (by intros []).
  rewrite bind_run, lift_run. cbn [getRecord records lookup list_lookup checked].
  rewrite bind_run, lift_run.
  cbn [getItem lookup list_lookup checked item_size get_double].
  apply (foreach_seq_checked days []).
Qed.

(** Steps of a positive number of seconds are all appended, as long as
    the timestamps that they give are values of [time_t]. *)
Lemma foreach_addTStep_success (days : list float) (tm : TimeMap) (L : time_t) :
  last (m_timeList tm) = Some L →
  Forall (λ d, 0 < seconds_of_days d) days →
  Forall time_t_value (timestamps_after L (map seconds_of_days days)) →
  ∃ tm', foreach days (λ d, addTStep (seconds_of_days d)) tm = (tm', Ok tt)
    ∧ m_timeList tm'
      = m_timeList tm ++ timestamps_after L (map seconds_of_days days).
Proof.
  revert tm L. induction days as [|d days IH]; intros tm L HL Hpos Hfit.
  - exists tm. by rewrite app_nil_r.
  - inversion Hpos as [|? ? Hd Hdays]; subst.
    cbn [map timestamps_after] in Hfit.
    inversion Hfit as [|? ? Hfit1 Hfits]; subst.
    cbn [foreach]. rewrite bind_run, addTStep_run, addTime_run.
    rewrite (vec_back_last _ _ HL), (forward_value _ _ Hfit1).
    rewrite bool_decide_true by lia.
    destruct (IH (appended (L + seconds_of_days d) tm) (L + seconds_of_days d))
      as (tm' & Hrun & Htimes); [apply last_snoc | done | done |].
    exists tm'. split; [done|].
    rewrite Htimes. cbn [appended m_timeList map timestamps_after].
    by rewrite <- app_assoc.
Qed.

(** A step fails exactly when the 64-bit sum is not above the last
    timestamp. *)
Lemma addTStep_fails_iff (tm : TimeMap) (L : time_t) (delta : int64_t) :
  last (m_timeList tm) = Some L →
  addTStep delta tm = (tm, Throw ordering_violation) ↔ forward L delta ≤ L.
Proof.
  intros HL. rewrite addTStep_run, addTime_run, (vec_back_last _ _ HL).
  case_bool_decide as Hgt; split; try done; lia.
Qed.

(** C10, as the source computes it: on a timeline with the last
    timestamp [L], [addTStep delta] throws the ordering violation and
    changes nothing exactly when the 64-bit sum of [L] and [delta] is not
    above [L]. That is so for every step of zero or fewer seconds whose
    sum with [L] is a value of [time_t], and for a TSTEP keyword whose
    first day-count gives such a step, as the day-counts 0 and -1 do. *)
Theorem addTStep_nonpositive_fails (tm : TimeMap) (L : time_t) :
  last (m_timeList tm) = Some L →
  (∀ delta, addTStep delta tm = (tm, Throw ordering_violation)
            ↔ forward L delta ≤ L)
  ∧ (∀ delta, delta ≤ 0 → time_t_value (L + delta) →
       addTStep delta tm = (tm, Throw ordering_violation))
  ∧ (∀ d days, seconds_of_days d ≤ 0 → time_t_value (L + seconds_of_days d) →
       addFromTSTEPKeyword (TSTEP_keyword (d :: days)) tm
       = (tm, Throw ordering_violation))
  ∧ seconds_of_days 0 = 0
  ∧ seconds_of_days (-1) = -86400.
Proof.
  intros HL.
  assert (Hstep : ∀ delta, delta ≤ 0 → time_t_value (L + delta) →
            addTStep delta tm = (tm, Throw ordering_violation)).
  { intros delta Hdelta Hfit. apply (addTStep_fails_iff tm L delta HL).
    rewrite (forward_value _ _ Hfit). lia. }
  split_and!; [| exact Hstep | | by vm_compute | by vm_compute].
  - intros delta. by apply addTStep_fails_iff.
  - intros d days Hd Hfit. unfold TSTEP_keyword.
    rewrite addFromTSTEPKeyword_run. cbn [foreach].
    by rewrite bind_run, Hstep.
Qed.

Lemma addTStep_nonpositive_fails_witness :
  last (m_timeList (TimeMap_ctor 1000)) = Some 1000
  ∧ addTStep 0 (TimeMap_ctor 1000) = (TimeMap_ctor 1000, Throw ordering_violation)
  ∧ addFromTSTEPKeyword (TSTEP_keyword [(-1)%float; 2%float]) (TimeMap_ctor 1000)
    = (TimeMap_ctor 1000, Throw ordering_violation).
Proof.
  split; [reflexivity|].
  destruct (addTStep_nonpositive_fails (TimeMap_ctor 1000) 1000 eq_refl)
    as (_ & Hstep & Hkw & _ & Hneg).
  split.
  - apply Hstep; [lia | unfold time_t_value; lia].
  - apply Hkw; rewrite Hneg; [lia | unfold time_t_value; lia].
Defined.

(** C10 as stated fails where the sum leaves the 64-bit range: a step of
    -10 seconds on a timeline that starts 5 seconds above the smallest
    [time_t] wraps around to a timestamp above the last one and is
    appended. So is the day-count -2^1000, whose seconds are beyond the
    64-bit range and come out as the smallest [int64_t], on a timeline
    that starts before 1970. *)
Lemma addTStep_nonpositive_wraps :
  (addTStep (-10) (TimeMap_ctor (- 2 ^ 63 + 5))).2 = Ok tt
  ∧ m_timeList (addTStep (-10) (TimeMap_ctor (- 2 ^ 63 + 5))).1
    = [- 2 ^ 63 + 5; 2 ^ 63 - 5]
  ∧ seconds_of_days (-0x1p+1000) = - 2 ^ 63
  ∧ (addFromTSTEPKeyword (TSTEP_keyword [(-0x1p+1000)%float])
       (TimeMap_ctor (-86400))).2 = Ok tt
  ∧ m_timeList (addFromTSTEPKeyword (TSTEP_keyword [(-0x1p+1000)%float])
                  (TimeMap_ctor (-86400))).1
    = [-86400; 2 ^ 63 - 86400].
Proof. split_and!; by vm_compute. Qed.

(** ** Claims on the TSTEP keyword *)

Lemma getTimeStepLength_times (tm : TimeMap) (t0 t1 t2 : time_t) :
  m_timeList tm = [t0; t1; t2] →
  getTimeStepLength tm 0 = Ok (static_cast_double (to_int64 (t1 - t0)))
  ∧ getTimeStepLength tm 1 = Ok (static_cast_double (to_int64 (t2 - t1))).
Proof.
  intros Htimes. unfold getTimeStepLength, numTimesteps. rewrite Htimes.
  split; reflexivity.
Qed.

Lemma TimeMap_ctor_Deck_START (record : DeckRecord) (t0 : time_t)
    (keywords : list DeckKeyword) :
  timeFromEclipse record = Ok t0 →
  Forall (λ k, name k ≠ "START") keywords →
  TimeMap_ctor_Deck_body (START_keyword record :: keywords) TimeMap_empty
  = foreach keywords (λ keyword,
      if bool_decide (name keyword = "TSTEP")
      then addFromTSTEPKeyword keyword
      else if bool_decide (name keyword = "DATES")
      then addFromDATESKeyword keyword
      else mret tt) (TimeMap_ctor t0).
Proof.
  intros Ht0 Hkws. unfold TimeMap_ctor_Deck_body.
  assert (Hfilter : filter (λ k, name k = "START") (START_keyword record :: keywords)
                    = [START_keyword record]).
  { rewrite filter_cons_True by done. f_equal.
    induction Hkws as [|k ks Hk _ IH]; [done|].
    by rewrite filter_cons_False. }
  assert (Hhas : hasKeyword (START_keyword record :: keywords) "START" = true).
  { apply bool_decide_eq_true. by apply Exists_cons_hd. }
  rewrite Hhas. unfold getKeyword. rewrite Hfilter.
  rewrite !bind_run. cbn [last checked]. rewrite lift_run.
  rewrite bind_run, lift_run. cbn [getRecord START_keyword records lookup list_lookup checked].
  rewrite bind_run, lift_run, Ht0.
  cbn [foreach update]. rewrite bind_run.
  rewrite bool_decide_true by done.
  rewrite ret_run. fold (TimeMap_ctor t0). generalize (TimeMap_ctor t0).
  clear Hfilter Hhas.
  induction Hkws as [|k ks Hk Hks IH]; intros tm; [done|].
  cbn [foreach]. rewrite !bind_run.
  assert (Hbody : ∀ tm0,
    (if bool_decide (name k ≠ "TSTEP" ∧ name k ≠ "DATES") then mret tt
     else if bool_decide (name k = "TSTEP") then addFromTSTEPKeyword k
     else if bool_decide (name k = "DATES") then addFromDATESKeyword k
     else mret tt) tm0
    = (if bool_decide (name k = "TSTEP") then addFromTSTEPKeyword k
       else if bool_decide (name k = "DATES") then addFromDATESKeyword k
       else mret tt) tm0).
  { intros tm0. destruct (decide (name k = "TSTEP")) as [Hn|Hn].
    - rewrite bool_decide_false by (by intros [? _]). done.
    - destruct (decide (name k = "DATES")) as [Hd|Hd].
      + rewrite bool_decide_false by (by intros [_ ?]). done.
      + rewrite bool_decide_true by done.
        by rewrite !(bool_decide_false (name k = _)) by done. }
  rewrite Hbody. destruct (_ tm) as [tm1 [u|e]]; [|done]. apply IH.
Qed.

(** C7, as the source computes it: a TSTEP keyword whose day-counts all
    give a positive number of seconds appends one timestamp per
    day-count, in order, each the previous last timestamp plus the
    seconds of the day-count, as long as these timestamps are values of
    [time_t]. The seconds are the truncation of the double-precision
    product [days * 24 * 60 * 60], evaluated from the left with a rounding
    after each multiplication. A timeline built from a START date and the
    TSTEP day-counts 10.0 and 5.5, in one keyword or in two, has exactly 3
    timestamps and the step lengths 864000 and 475200 seconds. *)
Theorem addFromTSTEPKeyword_appends_timestamps :
  (∀ tm L days,
     last (m_timeList tm) = Some L →
     Forall (λ d, 0 < seconds_of_days d) days →
     Forall time_t_value (timestamps_after L (map seconds_of_days days)) →
     ∃ tm', addFromTSTEPKeyword (TSTEP_keyword days) tm = (tm', Ok tt)
       ∧ m_timeList tm'
         = m_timeList tm ++ timestamps_after L (map seconds_of_days days))
  ∧ (∀ d, seconds_of_days d = static_cast_int64 (d * 24 * 60 * 60)%float)
  ∧ (∀ record t0 deck,
       timeFromEclipse record = Ok t0 →
       time_t_value t0 → time_t_value (t0 + 864000 + 475200) →
       deck = [START_keyword record; TSTEP_keyword [10; 5.5]%float]
       ∨ deck = [START_keyword record; TSTEP_keyword [10%float];
                 TSTEP_keyword [5.5%float]] →
       ∃ tm, TimeMap_ctor_Deck deck = Ok tm
         ∧ m_timeList tm = [t0; t0 + 864000; t0 + 864000 + 475200]
         ∧ size tm = 3%N
         ∧ getTimeStepLength tm 0 = Ok 864000%float
         ∧ getTimeStepLength tm 1 = Ok 475200%float).
Proof.
  split_and!.
  - intros tm L days HL Hpos Hfit. unfold TSTEP_keyword.
    destruct (foreach_addTStep_success days tm L HL Hpos Hfit)
      as (tm' & Hrun & Ht).
    exists tm'. by rewrite addFromTSTEPKeyword_run.
  - reflexivity.
  - intros record t0 deck Ht0 Hlo Hhi Hdeck.
    assert (H10 : seconds_of_days 10 = 864000) by (by vm_compute).
    assert (H55 : seconds_of_days 5.5 = 475200) by (by vm_compute).
    assert (Hfit1 : time_t_value (t0 + 864000))
      by (unfold time_t_value in *; lia).
    assert (Hrun : ∃ tm, TimeMap_ctor_Deck_body deck TimeMap_empty = (tm, Ok tt)
              ∧ m_timeList tm = [t0; t0 + 864000; t0 + 864000 + 475200]).
    { destruct Hdeck as [-> | ->].
      - rewrite (TimeMap_ctor_Deck_START record t0) by (done || by repeat constructor).
        cbn [foreach]. rewrite !bind_run. rewrite bool_decide_true by done.
        destruct (foreach_addTStep_success [10; 5.5]%float (TimeMap_ctor t0) t0)
          as (tm & Hrun & Ht); [done | | |].
        { rewrite !Forall_cons, H10, H55. split_and!; [lia | lia | done]. }
        { cbn [map timestamps_after]. rewrite H10, H55.
          repeat (apply Forall_cons_2; [assumption|]). apply Forall_nil_2. }
        unfold TSTEP_keyword. rewrite addFromTSTEPKeyword_run, Hrun.
        exists tm. split; [done|]. rewrite Ht. cbn [map timestamps_after].
        by rewrite H10, H55.
      - rewrite (TimeMap_ctor_Deck_START record t0) by (done || by repeat constructor).
        cbn [foreach]. rewrite !bind_run. rewrite !bool_decide_true by done.
        destruct (foreach_addTStep_success [10%float] (TimeMap_ctor t0) t0)
          as (tm1 & Hrun1 & Ht1); [done | | |].
        { rewrite !Forall_cons, H10. split_and!; [lia | done]. }
        { cbn [map timestamps_after]. rewrite H10.
          repeat (apply Forall_cons_2; [assumption|]). apply Forall_nil_2. }
        cbn [map timestamps_after] in Ht1. rewrite H10 in Ht1.
        destruct (foreach_addTStep_success [5.5%float] tm1 (t0 + 864000))
          as (tm & Hrun & Ht); [by rewrite Ht1 | | |].
        { rewrite !Forall_cons, H55. split_and!; [lia | done]. }
        { cbn [map timestamps_after]. rewrite H55.
          repeat (apply Forall_cons_2; [assumption|]). apply Forall_nil_2. }
        cbn [map timestamps_after] in Ht. rewrite H55, Ht1 in Ht.
        unfold TSTEP_keyword. rewrite addFromTSTEPKeyword_run, Hrun1.
        rewrite bind_run, addFromTSTEPKeyword_run, Hrun.
        exists tm. split; [done|]. by rewrite Ht. }
    destruct Hrun as (tm & Hrun & Ht). exists tm.
    unfold TimeMap_ctor_Deck. rewrite Hrun. split; [done|]. split; [done|].
    split; [unfold size; by rewrite Ht|].
    destruct (getTimeStepLength_times tm _ _ _ Ht) as [-> ->].
    replace (t0 + 864000 - t0) with 864000 by lia.
    replace (t0 + 864000 + 475200 - (t0 + 864000)) with 475200 by lia.
    split; by vm_compute.
Qed.

Lemma addFromTSTEPKeyword_appends_timestamps_witness :
  timeFromEclipse (date_record 1 "JAN" 2010 []) = Ok 1262304000
  ∧ ∃ tm,
      TimeMap_ctor_Deck [START_keyword (date_record 1 "JAN" 2010 []);
                         TSTEP_keyword [10; 5.5]%float] = Ok tm
      ∧ m_timeList tm = [1262304000; 1262304000 + 864000;
                         1262304000 + 864000 + 475200]
      ∧ size tm = 3%N
      ∧ getTimeStepLength tm 0 = Ok 864000%float
      ∧ getTimeStepLength tm 1 = Ok 475200%float.
Proof.
  split; [by vm_compute|].
  destruct addFromTSTEPKeyword_appends_timestamps as (_ & _ & Hexample).
  apply (Hexample (date_record 1 "JAN" 2010 []) 1262304000);
    [by vm_compute | unfold time_t_value; lia | unfold time_t_value; lia
    | by left].
Defined.

(** C7 as stated fails on the double nearest to 0.01: the source appends
    863 seconds, while 0.01 × 86400 truncated is 864, both for the exact
    product and for a single double-precision multiplication. It also
    fails on a day-count of zero, for which nothing is appended. *)
Lemma addFromTSTEPKeyword_not_exact_product :
  addFromTSTEPKeyword (TSTEP_keyword [one_hundredth]) (TimeMap_ctor 0)
  = (mkTimeMap [0; 863] [] [], Ok tt)
  ∧ trunc_days_times_86400 one_hundredth = 864
  ∧ static_cast_int64 (one_hundredth * 86400)%float = 864
  ∧ addFromTSTEPKeyword (TSTEP_keyword [0%float]) (TimeMap_ctor 0)
    = (mkTimeMap [0] [] [], Throw ordering_violation).
Proof. split_and!; by vm_compute. Qed.

(** ** Claims on the queries *)

(** C9, as the source computes it: on a timeline with at least one
    timestamp, [getTimeStepLength] stops at its assertion when the index
    is [numTimesteps] or more; that is the abort of a failed [assert], not
    the exception that [operator[]] throws. Below [numTimesteps] it
    returns the 64-bit difference of the timestamps at [index + 1] and at
    [index], converted to the nearest double; the double is that
    difference itself when the difference is at most 2^53 in magnitude. *)
Theorem getTimeStepLength_spec (tm : TimeMap) (index : size_t) :
  m_timeList tm ≠ [] →
  ((numTimesteps tm ≤ index)%N →
     getTimeStepLength tm index = Throw assertion_failure)
  ∧ ((index < numTimesteps tm)%N →
     ∃ t1 t2 x, at_index tm index = Ok t1
       ∧ at_index tm (index + 1) = Ok t2
       ∧ getTimeStepLength tm index = Ok x
       ∧ x = static_cast_double (to_int64 (t2 - t1))
       ∧ (- 2 ^ 53 ≤ t2 - t1 ≤ 2 ^ 53 → integer_value x = Some (t2 - t1))).
Proof.
  intros Hne. unfold getTimeStepLength, assert. split.
  - intros Hge. by rewrite bool_decide_false by lia.
  - intros Hlt. rewrite bool_decide_true by done.
    assert (Hlen : (N.to_nat index + 1 < length (m_timeList tm))%nat).
    { unfold numTimesteps, to_size_t, vec_size in Hlt.
      destruct (m_timeList tm) as [|t ts]; [done|]. cbn [length] in *.
      assert (Hmod : (Z.of_N (N.of_nat (S (length ts))) - 1) mod 2 ^ 64
                     ≤ Z.of_nat (length ts)).
      { replace (Z.of_N (N.of_nat (S (length ts))) - 1)
          with (Z.of_nat (length ts)) by lia.
        apply Z.mod_le; lia. }
      lia. }
    assert (Hnext : to_size_t (Z.of_N index + 1) = (index + 1)%N).
    { unfold to_size_t. rewrite Z.mod_small; [lia|].
      unfold numTimesteps, to_size_t in Hlt.
      pose proof (Z.mod_pos_bound (Z.of_N (vec_size (m_timeList tm)) - 1)
                    (2 ^ 64) ltac:(lia)).
      lia. }
    destruct (lookup_lt_is_Some_2 (m_timeList tm) (N.to_nat index)) as [t1 Ht1];
      [lia|].
    destruct (lookup_lt_is_Some_2 (m_timeList tm) (N.to_nat (index + 1)))
      as [t2 Ht2]; [lia|].
    exists t1, t2, (static_cast_double (to_int64 (t2 - t1))).
    unfold at_index, vec_size.
    rewrite !bool_decide_true by lia.
    rewrite Hnext. unfold vec_at. rewrite Ht1, Ht2.
    split_and!; [done | done | done | done |].
    intros Hsmall. rewrite to_int64_value by (unfold time_t_value; lia).
    by apply static_cast_double_exact.
Qed.

Lemma getTimeStepLength_spec_witness :
  m_timeList (mkTimeMap [0; 864000; 1339200] [] []) ≠ []
  ∧ getTimeStepLength (mkTimeMap [0; 864000; 1339200] [] []) 2
    = Throw assertion_failure
  ∧ getTimeStepLength (mkTimeMap [0; 864000; 1339200] [] []) 1
    = Ok 475200%float
  ∧ integer_value 475200%float = Some 475200.
Proof.
  split; [done|].
  destruct (getTimeStepLength_spec (mkTimeMap [0; 864000; 1339200] [] []) 2
              ltac:(done)) as [Hfail _].
  destruct (getTimeStepLength_spec (mkTimeMap [0; 864000; 1339200] [] []) 1
              ltac:(done)) as [_ Hok].
  split; [apply Hfail; by vm_compute|].
  destruct Hok as (t1 & t2 & x & H1 & H2 & Hx & Hval & Hexact);
    [by vm_compute|].
  injection H1 as <-. injection H2 as <-.
  rewrite Hx. split; [f_equal; rewrite Hval; reflexivity|].
  replace 475200%float with x by (rewrite Hval; reflexivity).
  apply Hexact. vm_compute. split; discriminate.
Defined.

(** C9 as stated fails on a step of more than 2^53 seconds: the timeline
    0, 2^53 + 1, which [addTime] builds, has the step length 2^53 + 1 and
    [getTimeStepLength] returns the double 2^53. *)
Lemma getTimeStepLength_rounds :
  addTime (2 ^ 53 + 1) (TimeMap_ctor 0)
  = (mkTimeMap [0; 2 ^ 53 + 1] [1%N] [1%N], Ok tt)
  ∧ at_index (mkTimeMap [0; 2 ^ 53 + 1] [1%N] [1%N]) 0 = Ok 0
  ∧ at_index (mkTimeMap [0; 2 ^ 53 + 1] [1%N] [1%N]) 1 = Ok (2 ^ 53 + 1)
  ∧ getTimeStepLength (mkTimeMap [0; 2 ^ 53 + 1] [1%N] [1%N]) 0
    = Ok 9007199254740992%float
  ∧ integer_value 9007199254740992%float = Some (2 ^ 53).
Proof. split_and!; by vm_compute. Qed.

(** ** The UTC calendar

    Composing a date of the calendar and decomposing the day number give
    each other back, so [mkdatetime] accepts exactly the dates of the
    calendar with a time within the day. *)

Ltac div_lia := Z.to_euclidean_division_equations; lia.

Lemma yoe_of_doe (yoe doe : Z) :
  0 ≤ yoe < 400 →
  first_day_of_year yoe ≤ doe →
  doe < first_day_of_year (yoe + 1) + (if bool_decide (yoe = 399) then 1 else 0) →
  (doe - doe / 1460 + doe / 36524 - doe / 146096) / 365 = yoe.
Proof.
  unfold first_day_of_year. intros Hy Hlo Hhi. case_bool_decide; div_lia.
Qed.

Lemma doe_of_yoe (doe : Z) :
  0 ≤ doe < 146097 →
  let yoe := (doe - doe / 1460 + doe / 36524 - doe / 146096) / 365 in
  0 ≤ yoe < 400
  ∧ first_day_of_year yoe ≤ doe
  ∧ doe < first_day_of_year (yoe + 1) + (if bool_decide (yoe = 399) then 1 else 0).
Proof.
  unfold first_day_of_year. intros Hd. cbv zeta. case_bool_decide; div_lia.
Qed.

Lemma month_cases (m : Z) :
  1 ≤ m ≤ 12 →
  m = 1 ∨ m = 2 ∨ m = 3 ∨ m = 4 ∨ m = 5 ∨ m = 6 ∨ m = 7 ∨ m = 8 ∨ m = 9
  ∨ m = 10 ∨ m = 11 ∨ m = 12.
Proof. lia. Qed.

Lemma civil_from_days_era (era doe : Z) :
  0 ≤ doe < 146097 →
  civil_from_days (era * 146097 + doe - 719468) =
  let yoe := (doe - doe / 1460 + doe / 36524 - doe / 146096) / 365 in
  let doy := doe - (365 * yoe + yoe / 4 - yoe / 100) in
  let mp := (5 * doy + 2) / 153 in
  let d := doy - (153 * mp + 2) / 5 + 1 in
  let m := if bool_decide (mp < 10) then mp + 3 else mp - 9 in
  (if bool_decide (m ≤ 2) then yoe + era * 400 + 1 else yoe + era * 400, m, d).
Proof.
  intros Hdoe. unfold civil_from_days.
  replace (era * 146097 + doe - 719468 + 719468) with (doe + era * 146097) by lia.
  rewrite Z.div_add by lia. rewrite (Z.div_small doe 146097) by lia.
  replace (doe + era * 146097 - (0 + era) * 146097) with doe by lia.
  reflexivity.
Qed.

Lemma civil_from_days_from_civil (y m d : Z) :
  valid_date y m d → civil_from_days (days_from_civil y m d) = (y, m, d).
Proof.
  intros [Hm Hd]. unfold days_in_month, is_leap in Hd.
  unfold days_from_civil.
  set (y' := if bool_decide (m ≤ 2) then y - 1 else y).
  set (era := y' / 400). set (yoe := y' - era * 400).
  set (mp := if bool_decide (2 < m) then m - 3 else m + 9).
  set (doy := (153 * mp + 2) / 5 + d - 1).
  assert (Hyoe : 0 ≤ yoe < 400) by (subst yoe era; div_lia).
  assert (Hy' : y' = yoe + era * 400) by (subst yoe; lia).
  assert (Hdoy : 0 ≤ doy
    ∧ first_day_of_year yoe + doy
      < first_day_of_year (yoe + 1) + (if bool_decide (yoe = 399) then 1 else 0)
    ∧ (5 * doy + 2) / 153 = mp
    ∧ (if bool_decide (mp < 10) then mp + 3 else mp - 9) = m).
  { unfold first_day_of_year. subst doy mp yoe era y'.
    apply month_cases in Hm.
    destruct_or! Hm; subst m; repeat case_bool_decide; try lia; div_lia. }
  destruct Hdoy as (Hdoy0 & Hdoy1 & Hmp & Hmm).
  replace (era * 146097 + (yoe * 365 + yoe / 4 - yoe / 100 + doy) - 719468)
    with (era * 146097 + (first_day_of_year yoe + doy) - 719468)
    by (unfold first_day_of_year; lia).
  assert (Hbound : 0 ≤ first_day_of_year yoe + doy < 146097).
  { clearbody doy yoe. clear -Hdoy0 Hdoy1 Hyoe. revert Hdoy1.
    unfold first_day_of_year. case_bool_decide; div_lia. }
  rewrite civil_from_days_era by done. cbv zeta.
  rewrite (yoe_of_doe yoe) by (done || lia).
  fold (first_day_of_year yoe).
  replace (first_day_of_year yoe + doy - first_day_of_year yoe) with doy by lia.
  rewrite Hmp, Hmm. f_equal; [f_equal|].
  - subst y'. rewrite <- Hy'. repeat case_bool_decide; lia.
  - subst doy. lia.
Qed.

Lemma civil_from_days_valid (z : Z) :
  ∃ y m d, civil_from_days z = (y, m, d)
    ∧ valid_date y m d ∧ days_from_civil y m d = z.
Proof.
  set (era := (z + 719468) / 146097).
  set (doe := z + 719468 - era * 146097).
  assert (Hdoe : 0 ≤ doe < 146097) by (subst doe era; div_lia).
  replace z with (era * 146097 + doe - 719468) by (subst doe; lia).
  rewrite civil_from_days_era by done. cbv zeta.
  destruct (doe_of_yoe doe Hdoe) as (Hyoe & Hlo & Hhi).
  set (yoe := (doe - doe / 1460 + doe / 36524 - doe / 146096) / 365) in *.
  fold (first_day_of_year yoe).
  set (doy := doe - first_day_of_year yoe).
  assert (Hdoy : 0 ≤ doy ≤ 365) by
    (clearbody yoe doe; subst doy; revert Hhi; unfold first_day_of_year in *;
     case_bool_decide; div_lia).
  set (mp := (5 * doy + 2) / 153).
  assert (Hmp : 0 ≤ mp ≤ 11) by (subst mp; div_lia).
  eexists _, _, _. split; [reflexivity|].
  assert (Hcases : mp = 0 ∨ mp = 1 ∨ mp = 2 ∨ mp = 3 ∨ mp = 4 ∨ mp = 5 ∨ mp = 6
                   ∨ mp = 7 ∨ mp = 8 ∨ mp = 9 ∨ mp = 10 ∨ mp = 11) by lia.
  assert (Hdoe' : doe = first_day_of_year yoe + doy) by (subst doy; lia).
  clearbody yoe doy. subst doe. clear Hdoe Hlo. clearbody era.
  unfold valid_date, days_in_month, is_leap, days_from_civil, first_day_of_year in *.
  destruct_or! Hcases; rewrite Hcases; subst mp;
    repeat case_bool_decide; try lia; try (split; div_lia).
Qed.

Lemma days_from_civil_day (y m d : Z) :
  days_from_civil y m d = days_from_civil y m 1 + (d - 1).
Proof. unfold days_from_civil. lia. Qed.

Lemma util_make_datetime_utc_days (sec min hour mday month year : Z) :
  1 ≤ month ≤ 12 →
  util_make_datetime_utc sec min hour mday month year
  = days_from_civil year month mday * 86400 + (hour * 3600 + min * 60 + sec).
Proof.
  intros Hm. unfold util_make_datetime_utc.
  replace ((month - 1) / 12) with 0 by div_lia.
  replace ((month - 1) mod 12 + 1) with month by div_lia.
  rewrite (days_from_civil_day year month mday), Z.add_0_r. lia.
Qed.

Lemma mkdatetime_valid (year month day hour minute second : Z) :
  (∃ t, mkdatetime year month day hour minute second = Ok t)
  ↔ valid_date year month day
    ∧ 0 ≤ hour * 3600 + minute * 60 + second < 86400.
Proof.
  set (tod := hour * 3600 + minute * 60 + second).
  unfold mkdatetime.
  set (t := util_make_datetime_utc second minute hour day month year).
  unfold util_set_date_values_utc.
  destruct (civil_from_days_valid (t / 86400)) as (y & m & d & Hciv & Hvalid & Hdays).
  rewrite Hciv. split.
  - intros [t' Ht']. case_bool_decide as Hne; [done|].
    assert (d = day ∧ m = month ∧ y = year) as (-> & -> & ->).
    { split_and!; apply dec_stable; naive_solver. }
    split; [done|].
    destruct Hvalid as [Hm _]. subst t.
    rewrite util_make_datetime_utc_days in Hdays by done. fold tod in Hdays.
    clearbody tod. div_lia.
  - intros [Hvalid' Htod].
    assert (Ht : t / 86400 = days_from_civil year month day).
    { subst t. destruct Hvalid' as [Hm _].
      rewrite util_make_datetime_utc_days by done. fold tod.
      clearbody tod. div_lia. }
    rewrite Ht, civil_from_days_from_civil in Hciv by done.
    injection Hciv as <- <- <-. exists t.
    rewrite bool_decide_false; [done|]. by intros [?|[?|?]].
Qed.

(** ** Claims on dates *)

(** C6: [mkdatetime] returns the composed timestamp exactly when
    decomposing it gives back the day, month and year that were passed;
    otherwise it throws the invalid date error, and no wrapped date is
    returned. The date 2021-02-30, which the composition wraps to
    2021-03-02, is rejected. *)
Theorem mkdatetime_roundtrip (in_year in_month in_day hour minute second : Z) :
  let t := util_make_datetime_utc second minute hour in_day in_month in_year in
  (mkdatetime in_year in_month in_day hour minute second = Ok t
   ↔ util_set_date_values_utc t = (in_day, in_month, in_year))
  ∧ (mkdatetime in_year in_month in_day hour minute second = Throw invalid_date
     ↔ util_set_date_values_utc t ≠ (in_day, in_month, in_year))
  ∧ (∀ t', mkdatetime in_year in_month in_day hour minute second = Ok t' →
       t' = t)
  ∧ mkdate in_year in_month in_day = mkdatetime in_year in_month in_day 0 0 0
  ∧ mkdate 2021 2 30 = Throw invalid_date
  ∧ util_set_date_values_utc (util_make_datetime_utc 0 0 0 30 2 2021)
    = (2, 3, 2021).
Proof.
  intros t.
  assert (Hfeb : mkdate 2021 2 30 = Throw invalid_date)
    by (vm_compute; reflexivity).
  assert (Hwrap : util_set_date_values_utc (util_make_datetime_utc 0 0 0 30 2 2021)
                  = (2, 3, 2021)) by (vm_compute; reflexivity).
  assert (Hdef : mkdate in_year in_month in_day
                 = mkdatetime in_year in_month in_day 0 0 0) by reflexivity.
  revert Hfeb Hwrap Hdef.
  generalize (mkdate 2021 2 30) (mkdate in_year in_month in_day)
    (mkdatetime in_year in_month in_day 0 0 0)
    (util_set_date_values_utc (util_make_datetime_utc 0 0 0 30 2 2021)).
  intros r1 r2 r3 r4 Hfeb Hwrap Hdef.
  unfold mkdatetime. fold t. clearbody t.
  destruct (util_set_date_values_utc t) as [[out_day out_month] out_year].
  destruct (decide ((out_day, out_month, out_year) = (in_day, in_month, in_year)))
    as [Heq|Hne].
  - injection Heq as -> -> ->.
    rewrite bool_decide_false by (intros [?|[?|?]]; done).
    split_and!; try done. by intros t' [= <-].
  - rewrite bool_decide_true.
    + split_and!; done.
    + destruct (decide (in_day = out_day)) as [->|?]; [|by left].
      destruct (decide (in_month = out_month)) as [->|?]; [|by right; left].
      destruct (decide (in_year = out_year)) as [->|?]; [|by right; right].
      by destruct Hne.
Qed.

(** ** Claims on the month-name table *)

Lemma std_map_insert_lookup (m : gmap string Z) (kv : string * Z) (k : string) :
  std_map_insert m kv !! k =
  match m !! k with
  | Some v => Some v
  | None => if decide (kv.1 = k) then Some kv.2 else None
  end.
Proof.
  unfold std_map_insert. destruct (m !! kv.1) as [v'|] eqn:Hkv.
  - destruct (m !! k) as [v|] eqn:Hk; [done|].
    case_decide as Heq; [|done]. congruence.
  - rewrite lookup_insert. case_decide as Heq.
    + subst k. by rewrite Hkv.
    + by destruct (m !! k).
Qed.

(** A table filled by [std::map::insert] holds, for each key, the first
    entry of the key. *)
Lemma foldl_std_map_insert_lookup (entries : list (string * Z))
    (m : gmap string Z) (k : string) :
  foldl std_map_insert m entries !! k =
  match m !! k with
  | Some v => Some v
  | None => (list_find (λ kv, kv.1 = k) entries) ≫= λ p, Some p.2.2
  end.
Proof.
  revert m. induction entries as [|kv entries IH]; intros m; cbn [foldl].
  - by destruct (m !! k).
  - rewrite IH, std_map_insert_lookup. cbn [list_find].
    destruct (m !! k) as [v|]; [done|].
    case_decide; [done|].
    destruct (list_find _ entries) as [[i p]|]; done.
Qed.

Lemma first_entry_elem_of (entries : list (string * Z)) (k : string) (n : Z) :
  NoDup entries.*1 →
  (list_find (λ kv, kv.1 = k) entries ≫= λ p, Some p.2.2) = Some n
  ↔ (k, n) ∈ entries.
Proof.
  induction entries as [|[k' v'] entries IH]; intros Hnodup; cbn [list_find].
  - cbn. split; [done | by intros ?%elem_of_nil].
  - apply NoDup_cons in Hnodup as [Hk' Hnodup]. cbn [fst] in *.
    rewrite elem_of_cons. case_decide as Hk.
    + subst k'. cbn. split; [intros [= ->]; by left|].
      intros [[= ->] | Hin]; [done|].
      exfalso. apply Hk'. apply list_elem_of_fmap. by exists (k, n).
    + specialize (IH Hnodup).
      destruct (list_find _ entries) as [[i p]|]; cbn in *.
      * rewrite IH. split; [by right | by intros [[= -> ->] | ?]].
      * rewrite IH. split; [by right | by intros [[= -> ->] | ?]].
Qed.

Lemma monthIndices_entries_NoDup : NoDup monthIndices_entries.*1.
Proof. apply (bool_decide_unpack _). by vm_compute. Qed.

Lemma eclipseMonthIndices_lookup (s : string) (n : Z) :
  eclipseMonthIndices !! s = Some n ↔ (s, n) ∈ monthIndices_entries.
Proof.
  unfold eclipseMonthIndices.
  rewrite foldl_std_map_insert_lookup, lookup_empty.
  apply first_entry_elem_of, monthIndices_entries_NoDup.
Qed.

Lemma timeFromEclipse_date_record (day : Z) (month : string) (year : Z)
    (time : list string) :
  timeFromEclipse (date_record day month year time) =
  let '(hour, min, second) :=
    match time with
    | s :: _ => default (0, 0, 0) (sscanf_hms s)
    | [] => (0, 0, 0)
    end in
  match eclipseMonthIndices !! month with
  | Some m => mkdatetime year m day hour min second
  | None => Throw unknown_month_name
  end.
Proof.
  unfold timeFromEclipse, date_record, std_map_at.
  destruct time as [|s time].
  - cbn -[eclipseMonthIndices mkdatetime].
    by destruct (eclipseMonthIndices !! month).
  - cbn -[eclipseMonthIndices mkdatetime sscanf_hms].
    destruct (default _ (sscanf_hms s)) as [[hour min] second].
    cbn -[eclipseMonthIndices mkdatetime].
    by destruct (eclipseMonthIndices !! month).
Qed.

(** C8: the table holds exactly the sixteen tokens below, the twelve
    English ones and the synonyms MAI, JLY, OKT and DES, with the month
    numbers 1 to 12; a date record whose month token is none of them makes
    [timeFromEclipse] throw the unknown month name error. *)
Theorem eclipseMonthIndices_table :
  (∀ s n, eclipseMonthIndices !! s = Some n
     ↔ (s, n) ∈ [ ("JAN", 1); ("FEB", 2); ("MAR", 3); ("APR", 4); ("MAI", 5);
                  ("MAY", 5); ("JUN", 6); ("JUL", 7); ("JLY", 7); ("AUG", 8);
                  ("SEP", 9); ("OCT", 10); ("OKT", 10); ("NOV", 11);
                  ("DEC", 12); ("DES", 12) ])
  ∧ (∀ n, (∃ s, eclipseMonthIndices !! s = Some n) ↔ 1 ≤ n ≤ 12)
  ∧ (∀ day month year time,
       month ∉ [ "JAN"; "FEB"; "MAR"; "APR"; "MAI"; "MAY"; "JUN"; "JUL"; "JLY";
                 "AUG"; "SEP"; "OCT"; "OKT"; "NOV"; "DEC"; "DES" ] →
       timeFromEclipse (date_record day month year time)
       = Throw unknown_month_name).
Proof.
  split_and!.
  - apply eclipseMonthIndices_lookup.
  - intros n. split.
    + intros [s Hs%eclipseMonthIndices_lookup].
      assert (Hall : Forall (λ kv : string * Z, 1 ≤ kv.2 ≤ 12) monthIndices_entries).
      { unfold monthIndices_entries. repeat (apply Forall_cons_2; [cbn; lia|]).
        apply Forall_nil_2. }
      rewrite Forall_forall in Hall. apply (Hall _ Hs).
    + intros Hn.
      assert (Hcases : n = 1 ∨ n = 2 ∨ n = 3 ∨ n = 4 ∨ n = 5 ∨ n = 6 ∨ n = 7
                       ∨ n = 8 ∨ n = 9 ∨ n = 10 ∨ n = 11 ∨ n = 12) by lia.
      destruct_or! Hcases; subst n;
        [ exists "JAN" | exists "FEB" | exists "MAR" | exists "APR"
        | exists "MAY" | exists "JUN" | exists "JUL" | exists "AUG"
        | exists "SEP" | exists "OCT" | exists "NOV" | exists "DEC" ];
        apply eclipseMonthIndices_lookup, (bool_decide_unpack _); by vm_compute.
  - intros day month year time Hmonth.
    rewrite timeFromEclipse_date_record.
    destruct (match time with [] => _ | _ => _ end) as [[hour min] second].
    destruct (eclipseMonthIndices !! month) as [n|] eqn:Hlookup; [|done].
    exfalso. apply Hmonth.
    apply eclipseMonthIndices_lookup in Hlookup.
    change (month ∈ monthIndices_entries.*1).
    apply list_elem_of_fmap. by exists (month, n).
Qed.

Lemma eclipseMonthIndices_table_witness :
  eclipseMonthIndices !! "OKT" = Some 10
  ∧ timeFromEclipse (date_record 1 "okt" 2010 ["12:00:00"])
    = Throw unknown_month_name.
Proof.
  destruct eclipseMonthIndices_table as (Htable & _ & Hunknown).
  split.
  - apply Htable, (bool_decide_unpack _). by vm_compute.
  - apply Hunknown, (bool_decide_unpack _). by vm_compute.
Defined.

(** ** Searching a sorted index vector *)

Lemma std_find_le (v : list size_t) (x : size_t) :
  (std_find v x ≤ length v)%nat.
Proof. induction v as [|y v IH]; cbn; [lia|]. case_bool_decide; lia. Qed.

Lemma std_find_lookup (v : list size_t) (x : size_t) :
  (std_find v x < length v)%nat → v !! std_find v x = Some x.
Proof.
  induction v as [|y v IH]; cbn; [lia|].
  case_bool_decide as Hy; [by subst|]. intros Hlt. apply IH. lia.
Qed.

Lemma std_find_elem_of (v : list size_t) (x : size_t) :
  x ∈ v ↔ std_find v x ≠ vec_end v.
Proof.
  unfold vec_end. induction v as [|y v IH]; cbn.
  - split; [by intros ?%elem_of_nil | done].
  - rewrite elem_of_cons. case_bool_decide as Hy.
    + split; [done | by left].
    + rewrite IH. split; [intros [?|?]; [by subst | lia] | right; lia].
Qed.

Lemma std_find_lt (v : list size_t) (x : size_t) :
  x ∈ v → (std_find v x < length v)%nat.
Proof.
  intros Hx%std_find_elem_of. pose proof (std_find_le v x).
  unfold vec_end in Hx. lia.
Qed.

Lemma strictly_increasing_lookup_inj (v : list size_t) (i j : nat) (x : size_t) :
  strictly_increasing N.lt v → v !! i = Some x → v !! j = Some x → i = j.
Proof.
  intros Hv Hi Hj.
  destruct (Nat.lt_trichotomy i j) as [Hlt|[Heq|Hgt]]; [|done|].
  - pose proof (Hv i j x x Hi Hj Hlt). lia.
  - pose proof (Hv j i x x Hj Hi Hgt). lia.
Qed.

Lemma strictly_increasing_lookup_le (v : list size_t) (i j : nat) (x y : size_t) :
  strictly_increasing N.lt v → v !! i = Some x → v !! j = Some y →
  (i ≤ j)%nat → (x ≤ y)%N.
Proof.
  intros Hv Hi Hj Hij. destruct (decide (i = j)) as [->|Hne].
  - rewrite Hi in Hj. injection Hj as ->. lia.
  - pose proof (Hv i j x y Hi Hj ltac:(lia)). lia.
Qed.

Lemma std_find_position (v : list size_t) (i : nat) (x : size_t) :
  strictly_increasing N.lt v → v !! i = Some x → std_find v x = i.
Proof.
  intros Hv Hi.
  assert (Hx : x ∈ v) by (by eapply list_elem_of_lookup_2).
  eapply strictly_increasing_lookup_inj; [done| |done].
  by apply std_find_lookup, std_find_lt.
Qed.

(** The binary search returns the partition point of a sorted vector:
    the elements before it are below [value] and the others are not. *)
Lemma lower_bound_loop_spec (v : list size_t) (value : size_t) :
  strictly_increasing N.lt v →
  ∀ fuel first len,
    (len ≤ fuel)%nat → (first + len ≤ length v)%nat →
    (∀ i x, v !! i = Some x → (i < first)%nat → (x < value)%N) →
    (∀ i x, v !! i = Some x → (first + len ≤ i)%nat → (value ≤ x)%N) →
    let r := lower_bound_loop fuel v value first len in
    (r ≤ length v)%nat
    ∧ (∀ i x, v !! i = Some x → (i < r)%nat → (x < value)%N)
    ∧ (∀ i x, v !! i = Some x → (r ≤ i)%nat → (value ≤ x)%N).
Proof.
  intros Hv fuel. induction fuel as [|fuel IH]; intros first len Hfuel Hlen Hlo Hhi.
  - cbn. replace len with 0%nat in * by lia.
    split_and!; [lia | done | intros i x Hi Hr; apply (Hhi i x Hi); lia].
  - cbn [lower_bound_loop]. case_bool_decide as Hpos; cycle 1.
    { replace len with 0%nat in * by lia.
      split_and!; [lia | done | intros i x Hi Hr; apply (Hhi i x Hi); lia]. }
    pose proof (Nat.lt_div2 len Hpos) as Hhalf.
    set (half := Nat.div2 len) in *.
    destruct (lookup_lt_is_Some_2 v (first + half)) as [y Hy]; [lia|].
    unfold vec_at. rewrite Hy. cbn [default from_option id].
    case_bool_decide as Hcmp.
    + apply IH; [lia | lia | | ].
      * intros i x Hi Hlt.
        pose proof (strictly_increasing_lookup_le v i (first + half) x y
                      Hv Hi Hy ltac:(lia)). lia.
      * intros i x Hi Hge. apply (Hhi i x Hi). lia.
    + apply IH; [lia | lia | done | ].
      intros i x Hi Hge.
      pose proof (strictly_increasing_lookup_le v (first + half) i y x
                    Hv Hy Hi ltac:(lia)). lia.
Qed.

Lemma std_lower_bound_spec (v : list size_t) (value : size_t) :
  strictly_increasing N.lt v →
  (std_lower_bound v value ≤ length v)%nat
  ∧ (∀ i x, v !! i = Some x → (i < std_lower_bound v value)%nat → (x < value)%N)
  ∧ (∀ i x, v !! i = Some x → (std_lower_bound v value ≤ i)%nat → (value ≤ x)%N).
Proof.
  intros Hv. apply lower_bound_loop_spec; [done | lia | cbn; lia | lia | ].
  intros i x Hi Hge. apply lookup_lt_Some in Hi. cbn in Hge. lia.
Qed.

(** [closest] returns the smallest element that is not below [value], and
    zero when every element is below it. *)
Lemma closest_spec (v : list size_t) (value : size_t) :
  strictly_increasing N.lt v →
  (smallest_at_least v value (closest v value)
   ∧ v !! std_lower_bound v value = Some (closest v value))
  ∨ ((∀ x, x ∈ v → (x < value)%N) ∧ closest v value = 0%N).
Proof.
  intros Hv. destruct (std_lower_bound_spec v value Hv) as (Hle & Hlo & Hhi).
  unfold closest, vec_end. case_bool_decide as Hend.
  - left.
    destruct (lookup_lt_is_Some_2 v (std_lower_bound v value)) as [a Ha]; [lia|].
    unfold vec_at. rewrite Ha. cbn [default from_option id]. split; [|done].
    split_and!.
    + by eapply list_elem_of_lookup_2.
    + by eapply Hhi.
    + intros x [i Hi]%list_elem_of_lookup Hx.
      destruct (decide (i < std_lower_bound v value)%nat) as [Hlt|Hge].
      * pose proof (Hlo i x Hi Hlt). lia.
      * eapply strictly_increasing_lookup_le; [done | exact Ha | exact Hi | lia].
  - right. split; [|done].
    intros x [i Hi]%list_elem_of_lookup. apply (Hlo i x Hi).
    apply lookup_lt_Some in Hi. lia.
Qed.

Lemma smallest_at_least_unique (v : list size_t) (value a b : size_t) :
  smallest_at_least v value a → smallest_at_least v value b → a = b.
Proof.
  intros (Ha & Hva & Hmin_a) (Hb & Hvb & Hmin_b).
  pose proof (Hmin_a b Hb Hvb). pose proof (Hmin_b a Ha Hva). lia.
Qed.

Lemma is_anchor_unique (v : list size_t) (start a b : size_t) :
  is_anchor v start a → is_anchor v start b → a = b.
Proof.
  intros [[Hin ->] | [Hout Ha]] [[Hin' ->] | [Hout' Hb]]; try done.
  by eapply smallest_at_least_unique.
Qed.

(** ** The periodic report-boundary query *)

(** The anchor that [isTimestepInFreqSequence] settles on: the position
    of the anchor of the specification when there is one, and no anchor
    otherwise. *)
Lemma anchor_search (S : list size_t) (start : size_t) :
  strictly_increasing N.lt S →
  let ci0 := std_find S start in
  let res :=
    if bool_decide (ci0 ≠ vec_end S) then (ci0, true)
    else
      let new_start := closest S start in
      if bool_decide (0%N ≠ new_start) then (std_find S new_start, true)
      else (ci0, false) in
  (∃ a, is_anchor S start a ∧ S !! res.1 = Some a ∧ res.2 = true)
  ∨ ((∀ a, ¬ is_anchor S start a) ∧ res.2 = false).
Proof.
  intros HS ci0 res. subst ci0 res. case_bool_decide as Hin.
  - apply std_find_elem_of in Hin. left. exists start. split_and!; [by left | | done].
    by apply std_find_lookup, std_find_lt.
  - assert (Hout : start ∉ S) by (intros Hs%std_find_elem_of; exact (Hs Hin)).
    cbv zeta.
    destruct (closest_spec S start HS) as [[Hc Hlb] | [Hall Hzero]].
    + assert (Hnz : 0%N ≠ closest S start).
      { intros Hz. destruct Hc as (Hcin & Hge & _). apply Hout.
        replace start with (closest S start) by lia. done. }
      rewrite bool_decide_true by done. left. exists (closest S start).
      split_and!; [by right | | done]. cbn [fst].
      by rewrite (std_find_position S _ _ HS Hlb).
    + rewrite Hzero. rewrite bool_decide_false by (intros Hz; by apply Hz).
      right. split; [|done].
      intros a [[Hin' _] | [_ (Ha & Hge & _)]]; [done|].
      specialize (Hall a Ha). lia.
Qed.

Lemma dist_conversion (len pi pa : nat) :
  Z.of_nat len < 2 ^ 31 → (pi < len)%nat → (pa ≤ pi)%nat →
  to_size_t (to_int (Z.of_nat pi - Z.of_nat pa + 1)) = N.of_nat (pi - pa + 1).
Proof.
  intros Hlen Hpi Hpa. unfold to_size_t, to_int.
  rewrite (Z.mod_small (_ + 2 ^ 31)) by lia.
  rewrite Z.mod_small by lia. lia.
Qed.

Lemma isTimestepInFreqSequence_spec (tm : TimeMap) (years : bool)
    (timestep start_timestep frequency : size_t) :
  let S := boundary_set tm years in
  strictly_increasing N.lt S → Z.of_nat (length S) < 2 ^ 31 → timestep ∈ S →
  isTimestepInFreqSequence tm timestep start_timestep frequency years = true
  ↔ ∃ anchor, is_anchor S start_timestep anchor
      ∧ rank_from_anchor_is_multiple S anchor timestep frequency.
Proof.
  intros S HS Hlen Hin. unfold isTimestepInFreqSequence.
  change (if years then getFirstTimestepYears tm else getFirstTimestepMonths tm)
    with S.
  pose proof (std_find_lt S timestep Hin) as Hpi.
  pose proof (std_find_lookup S timestep Hpi) as Hi.
  set (pi := std_find S timestep) in *.
  pose proof (anchor_search S start_timestep HS) as Hanchor. cbv zeta in Hanchor.
  destruct (if bool_decide (std_find S start_timestep ≠ vec_end S) then _ else _)
    as [pa flag].
  cbn [fst snd] in Hanchor.
  destruct Hanchor as [(a & Ha & Hpa & ->) | [Hnone ->]]; cycle 1.
  { split; [done|]. intros (a & Ha & _). by destruct (Hnone a). }
  case_bool_decide as Hle; cycle 1.
  { split; [done|]. intros (a' & Ha' & ra & ri & [Hra Hla] & [Hri Hli] & Hrank & _).
    rewrite (is_anchor_unique S _ _ _ Ha' Ha) in Hla.
    pose proof (strictly_increasing_lookup_inj S _ _ _ HS Hla Hpa).
    pose proof (strictly_increasing_lookup_inj S _ _ _ HS Hli Hi). lia. }
  rewrite (dist_conversion (length S)) by done.
  rewrite bool_decide_eq_true. split.
  - intros Hmod. exists a. split; [done|].
    exists (pa + 1)%nat, (pi + 1)%nat. unfold rank_in. rewrite !Nat.add_sub.
    split_and!; try done; try lia.
    by replace (pi + 1 - (pa + 1) + 1)%nat with (pi - pa + 1)%nat by lia.
  - intros (a' & Ha' & ra & ri & [Hra Hla] & [Hri Hli] & Hrank & Hmod).
    rewrite (is_anchor_unique S _ _ _ Ha' Ha) in Hla.
    pose proof (strictly_increasing_lookup_inj S _ _ _ HS Hla Hpa).
    pose proof (strictly_increasing_lookup_inj S _ _ _ HS Hli Hi).
    by replace (pi - pa + 1)%nat with (ri - ra + 1)%nat by lia.
Qed.

Lemma strictly_increasing_three (a b c : N) :
  (a < b)%N → (b < c)%N → strictly_increasing N.lt [a; b; c].
Proof.
  intros Hab Hbc.
  apply (strictly_increasing_snoc N.lt [a; b]);
    [|rewrite !Forall_cons; split_and!; [lia | lia | done]].
  apply (strictly_increasing_snoc N.lt [a]);
    [|rewrite !Forall_cons; split_and!; [lia | done]].
  apply (strictly_increasing_snoc N.lt []); [apply strictly_increasing_nil | done].
Qed.

(** C1: let [S] be the first-of-month vector, or the first-of-year
    vector when [usingYears], strictly increasing (and shorter than 2^31,
    the range of the [int] that holds the distance). [isReportBoundary] is
    false when [index] is not in [S]; true when it is and [frequency ≤ 1];
    and for a larger frequency true exactly when there is an anchor
    ([periodStartIndex], or the smallest element of [S] not below it) and
    the 1-based rank of [index] counted from the anchor, the anchor being
    rank one, is a multiple of [frequency]. On the month vector
    [0; 3; 6; 9] the query (6, months, 0, 2) is false. *)
Lemma isReportBoundary_rank_rule_general (tm : TimeMap) (usingYears : bool)
    (index periodStartIndex frequency : size_t) :
  let S := boundary_set tm usingYears in
  let r := isReportBoundary tm index usingYears periodStartIndex frequency in
  strictly_increasing N.lt S → Z.of_nat (length S) < 2 ^ 31 →
  (index ∉ S → r = false)
  ∧ (index ∈ S → (frequency ≤ 1)%N → r = true)
  ∧ (index ∈ S → (1 < frequency)%N →
     (r = true ↔ ∃ anchor, is_anchor S periodStartIndex anchor
                   ∧ rank_from_anchor_is_multiple S anchor index frequency)).
Proof.
  intros S r HS Hlen. subst r.
  unfold isReportBoundary, isTimestepInFirstOfMonthsYearsSequence.
  change (if usingYears then getFirstTimestepYears tm
          else getFirstTimestepMonths tm) with S.
  split_and!.
  - intros Hout. rewrite bool_decide_false; [done|].
    by rewrite <- std_find_elem_of.
  - intros Hin Hfreq. rewrite bool_decide_true by (by apply std_find_elem_of).
    by rewrite bool_decide_true.
  - intros Hin Hfreq. rewrite bool_decide_true by (by apply std_find_elem_of).
    rewrite bool_decide_false by lia.
    by apply isTimestepInFreqSequence_spec.
Qed.

Theorem isReportBoundary_spec :
  (∀ tm usingYears index periodStartIndex frequency,
     let S := boundary_set tm usingYears in
     let r := isReportBoundary tm index usingYears periodStartIndex frequency in
     strictly_increasing N.lt S → Z.of_nat (length S) < 2 ^ 31 →
     (index ∉ S → r = false)
     ∧ (index ∈ S → (frequency ≤ 1)%N → r = true)
     ∧ (index ∈ S → (1 < frequency)%N →
        (r = true ↔ ∃ anchor, is_anchor S periodStartIndex anchor
                      ∧ rank_from_anchor_is_multiple S anchor index frequency)))
  ∧ (∀ times years,
       isReportBoundary (mkTimeMap times years [0; 3; 6; 9]%N) 6 false 0 2
       = false).
Proof.
  split; [|reflexivity].
  intros tm usingYears index periodStartIndex frequency.
  apply isReportBoundary_rank_rule_general.
Qed.

Lemma isReportBoundary_spec_witness :
  strictly_increasing N.lt (boundary_set (mkTimeMap [] [] [3; 6; 9]%N) false)
  ∧ Z.of_nat (length (boundary_set (mkTimeMap [] [] [3; 6; 9]%N) false)) < 2 ^ 31
  ∧ isReportBoundary (mkTimeMap [] [] [3; 6; 9]%N) 6 false 2 2 = true
  ∧ isReportBoundary (mkTimeMap [] [] [3; 6; 9]%N) 5 false 2 2 = false.
Proof.
  assert (HS : strictly_increasing N.lt
                 (boundary_set (mkTimeMap [] [] [3; 6; 9]%N) false))
    by (apply strictly_increasing_three; lia).
  assert (Hlen : Z.of_nat (length (boundary_set (mkTimeMap [] [] [3; 6; 9]%N) false))
                 < 2 ^ 31) by (cbn; lia).
  split; [exact HS|]. split; [exact Hlen|].
  destruct isReportBoundary_spec as [Hgeneral _]. split.
  - destruct (Hgeneral (mkTimeMap [] [] [3; 6; 9]%N) false 6%N 2%N 2%N HS Hlen)
      as (_ & _ & Hrank).
    apply Hrank; [apply (bool_decide_unpack _); by vm_compute | lia |].
    exists 3%N. split.
    + right. split; [apply (bool_decide_unpack _); by vm_compute|].
      split_and!; [apply (bool_decide_unpack _); by vm_compute | lia |].
      intros x Hx Hle. cbn in Hx. rewrite !elem_of_cons, elem_of_nil in Hx. lia.
    + exists 1%nat, 2%nat. unfold rank_in. split_and!; try lia; reflexivity.
  - destruct (Hgeneral (mkTimeMap [] [] [3; 6; 9]%N) false 5%N 2%N 2%N HS Hlen)
      as (Hout & _).
    apply Hout. cbn. rewrite !elem_of_cons, elem_of_nil. lia.
Defined.

(** C2: for a frequency above one and an [index] in the strictly
    increasing vector [S], when [periodStartIndex] is not in [S] the ranks
    are counted from the smallest element of [S] that is not below
    [periodStartIndex]; when every element of [S] is below it, the query
    is false. *)
Theorem isReportBoundary_fallback_anchor (tm : TimeMap) (usingYears : bool)
    (index periodStartIndex frequency : size_t) :
  let S := boundary_set tm usingYears in
  let r := isReportBoundary tm index usingYears periodStartIndex frequency in
  strictly_increasing N.lt S → Z.of_nat (length S) < 2 ^ 31 →
  (1 < frequency)%N → index ∈ S → periodStartIndex ∉ S →
  (∀ anchor, smallest_at_least S periodStartIndex anchor →
     (r = true ↔ rank_from_anchor_is_multiple S anchor index frequency))
  ∧ ((∀ x, x ∈ S → (x < periodStartIndex)%N) → r = false).
Proof.
  intros S r HS Hlen Hfreq Hin Hout.
  destruct (isReportBoundary_rank_rule_general tm usingYears index
              periodStartIndex frequency HS Hlen) as (_ & _ & Hrank).
  specialize (Hrank Hin Hfreq). fold S r in Hrank. split.
  - intros anchor Hanchor. rewrite Hrank. split.
    + intros (a & Ha & Hmult).
      by rewrite (is_anchor_unique S _ _ _ (or_intror (conj Hout Hanchor)) Ha).
    + intros Hmult. exists anchor. split; [by right | done].
  - intros Hall. destruct r; [|done].
    destruct (proj1 Hrank eq_refl) as (a & [[Hin' _] | [_ (Ha & Hge & _)]] & _);
      [done|].
    specialize (Hall a Ha). lia.
Qed.

Lemma isReportBoundary_fallback_anchor_witness :
  strictly_increasing N.lt (boundary_set (mkTimeMap [] [] [3; 6; 9]%N) false)
  ∧ Z.of_nat (length (boundary_set (mkTimeMap [] [] [3; 6; 9]%N) false)) < 2 ^ 31
  ∧ (1 < 2)%N
  ∧ isReportBoundary (mkTimeMap [] [] [3; 6; 9]%N) 9 false 4 2 = true
  ∧ isReportBoundary (mkTimeMap [] [] [3; 6; 9]%N) 9 false 10 2 = false.
Proof.
  assert (HS : strictly_increasing N.lt
                 (boundary_set (mkTimeMap [] [] [3; 6; 9]%N) false))
    by (apply strictly_increasing_three; lia).
  assert (Hlen : Z.of_nat (length (boundary_set (mkTimeMap [] [] [3; 6; 9]%N) false))
                 < 2 ^ 31) by (cbn; lia).
  assert (Hin : 9%N ∈ boundary_set (mkTimeMap [] [] [3; 6; 9]%N) false)
    by (apply (bool_decide_unpack _); by vm_compute).
  split; [exact HS|]. split; [exact Hlen|]. split; [lia|]. split.
  - destruct (isReportBoundary_fallback_anchor (mkTimeMap [] [] [3; 6; 9]%N)
                false 9%N 4%N 2%N HS Hlen ltac:(lia) Hin) as [Hanchor _].
    { apply (bool_decide_unpack _). by vm_compute. }
    apply (Hanchor 6%N).
    + split_and!; [apply (bool_decide_unpack _); by vm_compute | lia |].
      intros x Hx Hle. cbn in Hx. rewrite !elem_of_cons, elem_of_nil in Hx. lia.
    + exists 2%nat, 3%nat. unfold rank_in. split_and!; try lia; reflexivity.
  - destruct (isReportBoundary_fallback_anchor (mkTimeMap [] [] [3; 6; 9]%N)
                false 9%N 10%N 2%N HS Hlen ltac:(lia) Hin) as [_ Hnone].
    { apply (bool_decide_unpack _). by vm_compute. }
    apply Hnone. intros x Hx. cbn in Hx.
    rewrite !elem_of_cons, elem_of_nil in Hx. lia.
Defined.

(** ** Further properties *)

(** [mkdatetime] returns a timestamp exactly for the dates of the
    proleptic Gregorian calendar (month 1..12, day 1..length of the month,
    leap years included) with a time of day within the day; a date such
    as the 31st of a 30-day month is rejected. *)
Theorem mkdatetime_accepts_valid_dates
    (year month day hour minute second : Z) :
  ((∃ t, mkdatetime year month day hour minute second = Ok t)
   ↔ valid_date year month day
     ∧ 0 ≤ hour * 3600 + minute * 60 + second < 86400)
  ∧ ((∃ t, mkdate year month day = Ok t) ↔ valid_date year month day).
Proof.
  split; [apply mkdatetime_valid|].
  unfold mkdate. rewrite mkdatetime_valid. split; [by intros [? _]|].
  intros Hvalid. split; [done | lia].
Qed.

Lemma strictly_increasing_tail {A} (R : relation A) (x : A) (l : list A) :
  strictly_increasing R (x :: l) → strictly_increasing R l.
Proof.
  intros Hl i j a b Hi Hj Hij.
  apply (Hl (Datatypes.S i) (Datatypes.S j) a b); [done | done | lia].
Qed.

Lemma foreach_addTime_success (ts : list time_t) (tm : TimeMap) (L : time_t) :
  last (m_timeList tm) = Some L → strictly_increasing Z.lt (L :: ts) →
  ∃ tm', foreach ts addTime tm = (tm', Ok tt)
    ∧ m_timeList tm' = m_timeList tm ++ ts.
Proof.
  revert tm L. induction ts as [|t ts IH]; intros tm L HL Hsorted.
  - exists tm. by rewrite app_nil_r.
  - assert (Hlt : L < t)
      by (apply (Hsorted 0%nat 1%nat); [reflexivity | reflexivity | lia]).
    cbn [foreach]. rewrite bind_run, addTime_run.
    rewrite (vec_back_last _ _ HL), bool_decide_true by lia.
    destruct (IH (appended t tm) t) as (tm' & Hrun & Htimes);
      [apply last_snoc | by eapply strictly_increasing_tail |].
    exists tm'. split; [done|]. rewrite Htimes. cbn [appended m_timeList].
    by rewrite <- app_assoc.
Qed.

(** Appending strictly increasing timestamps one after another succeeds;
    the timeline then holds the start time followed by the appended
    timestamps, [numTimesteps] is the number of appends and the index
    operator returns each timestamp at its position. *)
Theorem addTime_sequence_roundtrip (startTime : time_t) (ts : list time_t) :
  strictly_increasing Z.lt (startTime :: ts) →
  Z.of_nat (length ts) < 2 ^ 64 →
  ∃ tm, foreach ts addTime (TimeMap_ctor startTime) = (tm, Ok tt)
    ∧ m_timeList tm = startTime :: ts
    ∧ numTimesteps tm = N.of_nat (length ts)
    ∧ ∀ i t, (startTime :: ts) !! i = Some t → at_index tm (N.of_nat i) = Ok t.
Proof.
  intros Hsorted Hlen.
  destruct (foreach_addTime_success ts (TimeMap_ctor startTime) startTime)
    as (tm & Hrun & Htimes); [done | done |].
  cbn in Htimes. exists tm. split_and!; [done | done | |].
  - unfold numTimesteps, to_size_t, vec_size. rewrite Htimes. cbn [length].
    rewrite Z.mod_small by lia. lia.
  - intros i t Hi. unfold at_index, vec_size, vec_at. rewrite Htimes.
    apply lookup_lt_Some in Hi as Hlt.
    rewrite bool_decide_true by lia. by rewrite Nat2N.id, Hi.
Qed.

Lemma addTime_sequence_roundtrip_witness :
  strictly_increasing Z.lt (0 :: [10; 20])
  ∧ Z.of_nat (length [10; 20]) < 2 ^ 64
  ∧ ∃ tm, foreach [10; 20] addTime (TimeMap_ctor 0) = (tm, Ok tt)
      ∧ m_timeList tm = [0; 10; 20]
      ∧ numTimesteps tm = 2%N.
Proof.
  assert (Hsorted : strictly_increasing Z.lt (0 :: [10; 20])).
  { apply (strictly_increasing_snoc Z.lt [0; 10]);
      [|rewrite !Forall_cons; split_and!; [lia | lia | done]].
    apply (strictly_increasing_snoc Z.lt [0]);
      [|rewrite !Forall_cons; split_and!; [lia | done]].
    apply (strictly_increasing_snoc Z.lt []); [apply strictly_increasing_nil | done]. }
  assert (Hlen : Z.of_nat (length [10; 20]) < 2 ^ 64) by (cbn; lia).
  split; [exact Hsorted|]. split; [exact Hlen|].
  destruct (addTime_sequence_roundtrip 0 [10; 20] Hsorted Hlen)
    as (tm & Hrun & Htimes & Hsteps & _).
  exists tm. by split_and!.
Defined.

(** The index operator throws the index error exactly from the length
    on, and returns the timestamp at the index below it. *)
Theorem at_index_range (tm : TimeMap) (index : size_t) :
  (at_index tm index = Throw index_out_of_range
   ↔ (size tm ≤ index)%N)
  ∧ (∀ t, at_index tm index = Ok t
        ↔ m_timeList tm !! N.to_nat index = Some t).
Proof.
  unfold at_index, size, vec_size, vec_at. case_bool_decide as Hlt.
  - destruct (lookup_lt_is_Some_2 (m_timeList tm) (N.to_nat index)) as [t Ht];
      [lia|].
    rewrite Ht. split; [split; [done | lia]|].
    intros t'. split; [by intros [= ->] | by intros [= ->]].
  - split; [split; [lia | done]|].
    intros t. split; [done|]. intros Ht%lookup_lt_Some. lia.
Qed.

(** On a strictly increasing vector [closest], a binary search, returns
    the smallest element that is not below the value, or zero when every
    element is below it. *)
Theorem closest_smallest_at_least (vec : list size_t) (value : size_t) :
  strictly_increasing N.lt vec →
  ((∃ x, x ∈ vec ∧ (value ≤ x)%N) →
     smallest_at_least vec value (closest vec value))
  ∧ ((∀ x, x ∈ vec → (x < value)%N) → closest vec value = 0%N).
Proof.
  intros Hvec. destruct (closest_spec vec value Hvec) as [[Hc _] | [Hall Hzero]].
  - split; [done|]. intros Hall. destruct Hc as (Hin & Hge & _).
    specialize (Hall _ Hin). lia.
  - split; [|done]. intros (x & Hx & Hge). specialize (Hall x Hx). lia.
Qed.

Lemma closest_smallest_at_least_witness :
  strictly_increasing N.lt [3; 6; 9]%N
  ∧ smallest_at_least [3; 6; 9]%N 4 (closest [3; 6; 9]%N 4)
  ∧ closest [3; 6; 9]%N 10 = 0%N.
Proof.
  assert (Hvec : strictly_increasing N.lt [3; 6; 9]%N)
    by (apply strictly_increasing_three; lia).
  split; [exact Hvec|].
  destruct (closest_smallest_at_least [3; 6; 9]%N 4 Hvec) as [Hsome _].
  destruct (closest_smallest_at_least [3; 6; 9]%N 10 Hvec) as [_ Hnone].
  split.
  - apply Hsome. exists 6%N. split; [|lia].
    apply (bool_decide_unpack _). by vm_compute.
  - apply Hnone. intros x Hx. rewrite !elem_of_cons, elem_of_nil in Hx. lia.
Defined.

(** ** The end of the timeline *)

Lemma vec_at_last {A} `{Inhabited A} (v : list A) :
  vec_at v (length v - 1) = vec_back v.
Proof.
  unfold vec_at, vec_back. rewrite last_lookup.
  by replace (length v - 1)%nat with (Nat.pred (length v)) by lia.
Qed.

Lemma last_index (tm : TimeMap) :
  m_timeList tm ≠ [] → Z.of_nat (length (m_timeList tm)) < 2 ^ 64 →
  numTimesteps tm = N.of_nat (length (m_timeList tm) - 1).
Proof.
  intros Hne Hlen. unfold numTimesteps, to_size_t, vec_size.
  destruct (m_timeList tm) as [|t ts]; [done|]. cbn [length] in *.
  rewrite Z.mod_small by lia. lia.
Qed.

Lemma getEndTime_last (tm : TimeMap) (L : time_t) :
  last (m_timeList tm) = Some L →
  Z.of_nat (length (m_timeList tm)) < 2 ^ 64 →
  getEndTime tm = Ok L.
Proof.
  intros HL Hlen.
  assert (Hne : m_timeList tm ≠ []) by (by intros Hnil; rewrite Hnil in HL).
  unfold getEndTime, size. fold (numTimesteps tm). rewrite last_index by done.
  unfold at_index, vec_size.
  assert (0 < length (m_timeList tm))%nat
    by (destruct (m_timeList tm); [done | cbn; lia]).
  rewrite bool_decide_true by lia.
  by rewrite Nat2N.id, vec_at_last, (vec_back_last _ _ HL).
Qed.

(** [getEndTime] returns the last timestamp. After [addTime t] it returns
    [t] when the append succeeded, with [size] and [numTimesteps] one
    larger, and the former last timestamp when the append was refused. *)
Theorem getEndTime_follows_addTime (tm : TimeMap) (L t : time_t) :
  last (m_timeList tm) = Some L →
  Z.of_nat (length (m_timeList tm)) + 1 < 2 ^ 64 →
  getEndTime tm = Ok L
  ∧ (L < t →
       getEndTime (addTime t tm).1 = Ok t
       ∧ size (addTime t tm).1 = (size tm + 1)%N
       ∧ numTimesteps (addTime t tm).1 = (numTimesteps tm + 1)%N)
  ∧ (t ≤ L → getEndTime (addTime t tm).1 = Ok L).
Proof.
  intros HL Hlen.
  assert (Hne : m_timeList tm ≠ []) by (by intros Hnil; rewrite Hnil in HL).
  assert (0 < length (m_timeList tm))%nat
    by (destruct (m_timeList tm); [done | cbn; lia]).
  split_and!.
  - apply getEndTime_last; [done | lia].
  - intros Hlt. rewrite addTime_run, (vec_back_last _ _ HL).
    rewrite bool_decide_true by lia. cbn [fst].
    assert (Htimes : m_timeList (appended t tm) = m_timeList tm ++ [t]) by done.
    split_and!.
    + apply getEndTime_last; rewrite Htimes; [apply last_snoc|].
      rewrite length_app. cbn. lia.
    + unfold size, vec_size. rewrite Htimes, length_app. cbn. lia.
    + rewrite (last_index tm) by (done || lia).
      rewrite (last_index (appended t tm)).
      * rewrite Htimes, length_app. cbn. lia.
      * rewrite Htimes. by destruct (m_timeList tm).
      * rewrite Htimes, length_app. cbn. lia.
  - intros Hle. rewrite addTime_run, (vec_back_last _ _ HL).
    rewrite bool_decide_false by lia. cbn [fst].
    apply getEndTime_last; [done | lia].
Qed.

Lemma getEndTime_follows_addTime_witness :
  last (m_timeList (TimeMap_ctor 100)) = Some 100
  ∧ Z.of_nat (length (m_timeList (TimeMap_ctor 100))) + 1 < 2 ^ 64
  ∧ getEndTime (TimeMap_ctor 100) = Ok 100
  ∧ getEndTime (addTime 250 (TimeMap_ctor 100)).1 = Ok 250
  ∧ getEndTime (addTime 50 (TimeMap_ctor 100)).1 = Ok 100.
Proof.
  split; [reflexivity|]. split; [cbn; lia|].
  destruct (getEndTime_follows_addTime (TimeMap_ctor 100) 100 250 eq_refl
              ltac:(cbn; lia)) as (Hend & Hgrow & _).
  destruct (getEndTime_follows_addTime (TimeMap_ctor 100) 100 50 eq_refl
              ltac:(cbn; lia)) as (_ & _ & Hkeep).
  split; [exact Hend|]. split; [apply Hgrow; lia | apply Hkeep; lia].
Defined.

(** [getTimePassedUntil] fails (its assertion) from [size] on; at the last
    index, [last], it returns what [getTotalTime] returns, which is zero
    for a timeline of one timestamp. *)
Theorem getTotalTime_is_time_passed_until_last (tm : TimeMap) :
  m_timeList tm ≠ [] → Z.of_nat (length (m_timeList tm)) < 2 ^ 64 →
  getTimePassedUntil tm (last_step tm) = Ok (getTotalTime tm)
  ∧ (∀ index, (size tm ≤ index)%N →
       getTimePassedUntil tm index = Throw assertion_failure)
  ∧ (size tm = 1%N → getTotalTime tm = 0%float).
Proof.
  intros Hne Hlen. unfold last_step. rewrite last_index by done.
  unfold getTimePassedUntil, getTotalTime, size, assert, vec_size.
  assert (0 < length (m_timeList tm))%nat
    by (destruct (m_timeList tm); [done | cbn; lia]).
  split_and!.
  - rewrite bool_decide_true by lia. rewrite Nat2N.id, vec_at_last.
    case_bool_decide as Hone; [|done].
    destruct (m_timeList tm) as [|t0 [|t1 ts]]; [done | | cbn in Hone; lia].
    unfold vec_back, vec_at. cbn. by rewrite Z.sub_diag.
  - intros index Hge. by rewrite bool_decide_false by lia.
  - intros Hone. by rewrite bool_decide_true by lia.
Qed.

Lemma getTotalTime_is_time_passed_until_last_witness :
  m_timeList (mkTimeMap [0; 864000; 1339200] [] []) ≠ []
  ∧ getTimePassedUntil (mkTimeMap [0; 864000; 1339200] [] []) 2
    = Ok (getTotalTime (mkTimeMap [0; 864000; 1339200] [] []))
  ∧ getTimePassedUntil (mkTimeMap [0; 864000; 1339200] [] []) 3
    = Throw assertion_failure.
Proof.
  split; [done|].
  destruct (getTotalTime_is_time_passed_until_last
              (mkTimeMap [0; 864000; 1339200] [] []) ltac:(done) ltac:(cbn; lia))
    as (Hlast & Hfail & _).
  split; [exact Hlast | apply Hfail; by vm_compute].
Defined.

(** ** What the mutators keep *)

(** The loops over a keyword keep what [addTime] keeps. *)
Lemma addTStep_preserves_of_addTime (P : TimeMap → Prop) (step : int64_t) :
  (∀ t, preserves P (addTime t)) → preserves P (addTStep step).
Proof. intros Hadd tm Htm. rewrite addTStep_run. by apply Hadd. Qed.

Lemma addFromTSTEPKeyword_preserves_of_addTime (P : TimeMap → Prop)
    (keyword : DeckKeyword) :
  (∀ t, preserves P (addTime t)) → preserves P (addFromTSTEPKeyword keyword).
Proof.
  intros Hadd. unfold addFromTSTEPKeyword.
  case_bool_decide; [apply preserves_throw|].
  apply preserves_bind; [apply preserves_lift | intros record].
  apply preserves_bind; [apply preserves_lift | intros item].
  apply preserves_foreach. intros itemIndex.
  apply preserves_bind; [apply preserves_lift | intros days].
  by apply addTStep_preserves_of_addTime.
Qed.

Lemma addFromDATESKeyword_preserves_of_addTime (P : TimeMap → Prop)
    (keyword : DeckKeyword) :
  (∀ t, preserves P (addTime t)) → preserves P (addFromDATESKeyword keyword).
Proof.
  intros Hadd. unfold addFromDATESKeyword.
  case_bool_decide; [apply preserves_throw|].
  apply preserves_foreach. intros recordIndex.
  apply preserves_bind; [apply preserves_lift | intros record].
  apply preserves_bind; [apply preserves_lift | intros nextTime].
  apply Hadd.
Qed.

Lemma keyword_loop_preserves_of_addTime (P : TimeMap → Prop) (deck : Deck) :
  (∀ t, preserves P (addTime t)) →
  preserves P (foreach deck (λ keyword,
    if bool_decide (name keyword ≠ "TSTEP" ∧ name keyword ≠ "DATES")
    then mret tt
    else if bool_decide (name keyword = "TSTEP")
    then addFromTSTEPKeyword keyword
    else if bool_decide (name keyword = "DATES")
    then addFromDATESKeyword keyword
    else mret tt)).
Proof.
  intros Hadd. apply preserves_foreach. intros keyword.
  repeat case_bool_decide;
    auto using preserves_ret, addFromTSTEPKeyword_preserves_of_addTime,
      addFromDATESKeyword_preserves_of_addTime.
Qed.

(** The constructor from a deck: the start time is pushed on the empty
    object and the loop over the keywords runs from there. *)
Lemma TimeMap_ctor_Deck_inversion (deck : Deck) (tm : TimeMap) :
  TimeMap_ctor_Deck deck = Ok tm →
  ∃ t0,
    (if hasKeyword deck "START"
     then ∃ keyword record,
            getKeyword deck "START" = Ok keyword
            ∧ getRecord keyword 0 = Ok record
            ∧ timeFromEclipse record = Ok t0
     else mkdate 1983 1 1 = Ok t0)
    ∧ foreach deck (λ keyword,
        if bool_decide (name keyword ≠ "TSTEP" ∧ name keyword ≠ "DATES")
        then mret tt
        else if bool_decide (name keyword = "TSTEP")
        then addFromTSTEPKeyword keyword
        else if bool_decide (name keyword = "DATES")
        then addFromDATESKeyword keyword
        else mret tt) (TimeMap_ctor t0) = (tm, Ok tt).
Proof.
  unfold TimeMap_ctor_Deck, TimeMap_ctor_Deck_body. rewrite bind_run.
  destruct (hasKeyword deck "START").
  - rewrite bind_run, lift_run.
    destruct (getKeyword deck "START") as [keyword|e]; [|done].
    rewrite bind_run, lift_run.
    destruct (getRecord keyword 0) as [record|e] eqn:Hrecord; [|done].
    rewrite bind_run, lift_run.
    destruct (timeFromEclipse record) as [t0|e] eqn:Ht0; [|done].
    cbn [update]. fold (TimeMap_ctor t0).
    destruct (foreach deck _ (TimeMap_ctor t0)) as [tm' [[]|e]] eqn:Hloop;
      [|done].
    intros [= ->]. exists t0.
    split; [exists keyword, record; split_and!; assumption || reflexivity
           | exact Hloop].
  - rewrite bind_run, lift_run.
    destruct (mkdate 1983 1 1) as [t0|e] eqn:Ht0; [|done].
    cbn [update]. fold (TimeMap_ctor t0).
    destruct (foreach deck _ (TimeMap_ctor t0)) as [tm' [[]|e]] eqn:Hloop;
      [|done].
    intros [= ->]. exists t0. split; [reflexivity | exact Hloop].
Qed.

Lemma extends_refl (tm : TimeMap) : extends tm tm.
Proof. by split_and!. Qed.

Lemma extends_trans (tm1 tm2 tm3 : TimeMap) :
  extends tm1 tm2 → extends tm2 tm3 → extends tm1 tm3.
Proof.
  intros (H1 & H2 & H3) (H1' & H2' & H3').
  split_and!; by etrans.
Qed.

Lemma addTime_extends (tm0 : TimeMap) (t : time_t) :
  preserves (extends tm0) (addTime t).
Proof.
  intros tm Htm. rewrite addTime_run. case_bool_decide; [|done]. cbn [fst].
  eapply extends_trans; [exact Htm|].
  unfold extends, appended. cbn. split_and!; apply prefix_app_r; done.
Qed.

Lemma extends_lookup (tm tm' : TimeMap) (i : nat) (t : time_t) :
  extends tm tm' → m_timeList tm !! i = Some t → m_timeList tm' !! i = Some t.
Proof. intros [Htimes _] Hi. by eapply prefix_lookup_Some. Qed.

(** Whether they return or throw, [addTime], [addTStep] and the loops
    over a TSTEP and a DATES keyword only add entries at the back of the
    three vectors: what was stored stays at its index, and [operator[]]
    keeps returning it. *)
Theorem mutators_only_extend (tm : TimeMap) :
  (∀ t, extends tm (addTime t tm).1)
  ∧ (∀ step, extends tm (addTStep step tm).1)
  ∧ (∀ keyword, extends tm (addFromTSTEPKeyword keyword tm).1)
  ∧ (∀ keyword, extends tm (addFromDATESKeyword keyword tm).1)
  ∧ (∀ tm' index t, extends tm tm' →
       at_index tm index = Ok t → at_index tm' index = Ok t).
Proof.
  split_and!.
  - intros t. apply addTime_extends, extends_refl.
  - intros step. apply addTStep_preserves_of_addTime;
      [apply addTime_extends | apply extends_refl].
  - intros keyword. apply addFromTSTEPKeyword_preserves_of_addTime;
      [apply addTime_extends | apply extends_refl].
  - intros keyword. apply addFromDATESKeyword_preserves_of_addTime;
      [apply addTime_extends | apply extends_refl].
  - intros tm' index t Hext. unfold at_index, vec_size, vec_at.
    case_bool_decide as Hlt; [|done].
    destruct (lookup_lt_is_Some_2 (m_timeList tm) (N.to_nat index)) as [t' Ht'];
      [lia|].
    rewrite Ht'. intros [= ->].
    pose proof (extends_lookup _ _ _ _ Hext Ht') as Ht.
    apply lookup_lt_Some in Ht as Hlt'.
    rewrite bool_decide_true by lia. by rewrite Ht.
Qed.

Lemma mutators_only_extend_witness :
  extends (TimeMap_ctor 0) (addTime 5000000 (TimeMap_ctor 0)).1
  ∧ at_index (addTime 5000000 (TimeMap_ctor 0)).1 0 = Ok 0.
Proof.
  destruct (mutators_only_extend (TimeMap_ctor 0)) as (Hadd & _ & _ & _ & Hat).
  split; [apply Hadd|]. by apply (Hat _ 0%N 0 (Hadd 5000000)).
Defined.

(** ** The index vectors record the changes of month and year *)






(** ** The keyword loops *)

Lemma foreach_app {A} (l1 l2 : list A) (body : A → method unit) (tm : TimeMap) :
  foreach (l1 ++ l2) body tm =
  match foreach l1 body tm with
  | (tm1, Ok _) => foreach l2 body tm1
  | (tm1, Throw e) => (tm1, Throw e)
  end.
Proof.
  revert tm. induction l1 as [|x l1 IH]; intros tm; [done|].
  cbn [app foreach]. rewrite !bind_run.
  destruct (body x tm) as [tm1 [u|e]]; [apply IH | done].
Qed.

Lemma addFromDATESKeyword_run (records : list DeckRecord) (tm : TimeMap) :
  addFromDATESKeyword (DATES_keyword records) tm
  = foreach records
      (λ record, nextTime ← lift (timeFromEclipse record); addTime nextTime) tm.
Proof.
  unfold addFromDATESKeyword, DATES_keyword. cbn [name].
  rewrite bool_decide_false by (by intros []).
  apply (foreach_seq_checked records []).
Qed.

Lemma foreach_dates_success (records : list DeckRecord) (ts : list time_t)
    (tm : TimeMap) (L : time_t) :
  last (m_timeList tm) = Some L →
  Forall2 (λ record t, timeFromEclipse record = Ok t) records ts →
  strictly_increasing Z.lt (L :: ts) →
  ∃ tm', foreach records
           (λ record, nextTime ← lift (timeFromEclipse record); addTime nextTime)
           tm = (tm', Ok tt)
    ∧ m_timeList tm' = m_timeList tm ++ ts.
Proof.
  intros HL Hrecords. revert tm L HL.
  induction Hrecords as [|record t records ts Ht _ IH]; intros tm L HL Hsorted.
  - exists tm. by rewrite app_nil_r.
  - assert (Hlt : L < t)
      by (apply (Hsorted 0%nat 1%nat); [reflexivity | reflexivity | lia]).
    cbn [foreach]. rewrite !bind_run, lift_run, Ht, addTime_run.
    rewrite (vec_back_last _ _ HL), bool_decide_true by lia.
    destruct (IH (appended t tm) t) as (tm' & Hrun & Htimes);
      [apply last_snoc | by eapply strictly_increasing_tail |].
    exists tm'. split; [done|]. rewrite Htimes. cbn [appended m_timeList].
    by rewrite <- app_assoc.
Qed.

(** A DATES keyword whose records give timestamps that increase strictly
    from the last timestamp on appends them in order. The loop stops at
    the first record that does not parse or whose timestamp is not above
    the last one: the exception of that record leaves the method, the
    timestamps of the records before it stay appended and the records
    after it are not read. A keyword of another name is refused. *)
Theorem addFromDATESKeyword_appends_dates (tm : TimeMap) (L : time_t) :
  last (m_timeList tm) = Some L →
  (∀ records ts,
     Forall2 (λ record t, timeFromEclipse record = Ok t) records ts →
     strictly_increasing Z.lt (L :: ts) →
     ∃ tm', addFromDATESKeyword (DATES_keyword records) tm = (tm', Ok tt)
       ∧ m_timeList tm' = m_timeList tm ++ ts)
  ∧ (∀ records ts record rest e,
       Forall2 (λ record t, timeFromEclipse record = Ok t) records ts →
       strictly_increasing Z.lt (L :: ts) →
       timeFromEclipse record = Throw e
       ∨ (∃ t L', timeFromEclipse record = Ok t ∧ last (L :: ts) = Some L'
                  ∧ t ≤ L' ∧ e = ordering_violation) →
       ∃ tm', addFromDATESKeyword (DATES_keyword (records ++ record :: rest)) tm
              = (tm', Throw e)
         ∧ m_timeList tm' = m_timeList tm ++ ts)
  ∧ (∀ keyword, name keyword ≠ "DATES" →
       addFromDATESKeyword keyword tm
       = (tm, Throw (invalid_argument "Method requires DATES keyword input."))).
Proof.
  intros HL. split_and!.
  - intros records ts Hrecords Hsorted. rewrite addFromDATESKeyword_run.
    by eapply foreach_dates_success.
  - intros records ts record rest e Hrecords Hsorted Hfail.
    rewrite addFromDATESKeyword_run, foreach_app.
    destruct (foreach_dates_success records ts tm L HL Hrecords Hsorted)
      as (tm1 & -> & Htimes).
    exists tm1. split; [|done]. cbn [foreach]. rewrite !bind_run, lift_run.
    destruct Hfail as [-> | (t & L' & -> & HL' & Hle & ->)]; [done|].
    rewrite addTime_run.
    assert (Hlast1 : last (m_timeList tm1) = Some L').
    { rewrite Htimes. destruct ts as [|t1 ts]; [|by rewrite last_app_cons in *].
      rewrite app_nil_r. cbn in HL'. congruence. }
    rewrite (vec_back_last _ _ Hlast1). by rewrite bool_decide_false by lia.
  - intros keyword Hname. unfold addFromDATESKeyword.
    by rewrite bool_decide_true.
Qed.

Lemma addFromDATESKeyword_appends_dates_witness :
  last (m_timeList (TimeMap_ctor 1262304000)) = Some 1262304000
  ∧ (∃ tm', addFromDATESKeyword
              (DATES_keyword [date_record 1 "FEB" 2010 [];
                              date_record 1 "MAR" 2010 ["12:00:00"]])
              (TimeMap_ctor 1262304000) = (tm', Ok tt)
       ∧ m_timeList tm' = m_timeList (TimeMap_ctor 1262304000)
                          ++ [1264982400; 1267444800])
  ∧ (∃ tm', addFromDATESKeyword
              (DATES_keyword ([date_record 1 "FEB" 2010 []]
                              ++ date_record 31 "JAN" 2010 [] :: []))
              (TimeMap_ctor 1262304000) = (tm', Throw ordering_violation)
       ∧ m_timeList tm' = m_timeList (TimeMap_ctor 1262304000) ++ [1264982400]).
Proof.
  split; [reflexivity|].
  destruct (addFromDATESKeyword_appends_dates (TimeMap_ctor 1262304000)
              1262304000 eq_refl) as (Hok & Hfail & _).
  split.
  - apply Hok.
    + apply Forall2_cons. split; [by vm_compute|].
      apply Forall2_cons. split; [by vm_compute | apply Forall2_nil_2].
    + apply (strictly_increasing_snoc Z.lt [1262304000; 1264982400]);
        [|rewrite !Forall_cons; split_and!; [lia | lia | done]].
      apply (strictly_increasing_snoc Z.lt [1262304000]);
        [|rewrite !Forall_cons; split_and!; [lia | done]].
      apply (strictly_increasing_snoc Z.lt []);
        [apply strictly_increasing_nil | done].
  - apply Hfail.
    + apply Forall2_cons. split; [by vm_compute | apply Forall2_nil_2].
    + apply (strictly_increasing_snoc Z.lt [1262304000]);
        [|rewrite !Forall_cons; split_and!; [lia | done]].
      apply (strictly_increasing_snoc Z.lt []);
        [apply strictly_increasing_nil | done].
    + right. exists 1264896000, 1264982400.
      split_and!; [by vm_compute | reflexivity | lia | reflexivity].
Defined.

Lemma timestamps_after_app (t : time_t) (steps1 steps2 : list int64_t) :
  timestamps_after t (steps1 ++ steps2)
  = timestamps_after t steps1
    ++ timestamps_after (foldl Z.add t steps1) steps2.
Proof.
  revert t. induction steps1 as [|s steps1 IH]; intros t; [done|].
  cbn [app timestamps_after foldl]. by rewrite IH.
Qed.

Lemma last_timestamps_after (l : list time_t) (L : time_t)
    (steps : list int64_t) :
  last l = Some L →
  last (l ++ timestamps_after L steps) = Some (foldl Z.add L steps).
Proof.
  revert l L. induction steps as [|s steps IH]; intros l L HL.
  - by rewrite app_nil_r.
  - cbn [timestamps_after foldl]. rewrite cons_middle, app_assoc.
    apply IH, last_snoc.
Qed.

(** A TSTEP keyword stops at the first day-count that gives zero or fewer
    seconds: the ordering violation leaves the method, the timestamps of
    the day-counts before it stay appended and the day-counts after it
    are not read. The sums up to that day-count are taken to be values of
    [time_t]. A keyword of another name is refused, and an empty list of
    day-counts changes nothing. *)
Theorem addFromTSTEPKeyword_stops_at_first_failure (tm : TimeMap) (L : time_t) :
  last (m_timeList tm) = Some L →
  (∀ days d rest,
     Forall (λ d, 0 < seconds_of_days d) days → seconds_of_days d ≤ 0 →
     Forall time_t_value
       (timestamps_after L (map seconds_of_days (days ++ [d]))) →
     ∃ tm', addFromTSTEPKeyword (TSTEP_keyword (days ++ d :: rest)) tm
            = (tm', Throw ordering_violation)
       ∧ m_timeList tm'
         = m_timeList tm ++ timestamps_after L (map seconds_of_days days))
  ∧ (∀ keyword, name keyword ≠ "TSTEP" →
       addFromTSTEPKeyword keyword tm
       = (tm, Throw (invalid_argument "Method requires TSTEP keyword input.")))
  ∧ addFromTSTEPKeyword (TSTEP_keyword []) tm = (tm, Ok tt).
Proof.
  intros HL. split_and!.
  - intros days d rest Hdays Hd Hfit. unfold TSTEP_keyword.
    rewrite map_app, timestamps_after_app in Hfit.
    apply Forall_app in Hfit as [Hfit Hfitd].
    cbn [map timestamps_after] in Hfitd. apply Forall_cons in Hfitd as [Hfitd _].
    rewrite addFromTSTEPKeyword_run, foreach_app.
    destruct (foreach_addTStep_success days tm L HL Hdays Hfit)
      as (tm1 & -> & Htimes).
    exists tm1. split; [|done]. cbn [foreach]. rewrite bind_run.
    rewrite addTStep_run, addTime_run, Htimes.
    rewrite (vec_back_last _ _ (last_timestamps_after _ _ _ HL)).
    rewrite (forward_value _ _ Hfitd).
    by rewrite bool_decide_false by lia.
  - intros keyword Hname. unfold addFromTSTEPKeyword.
    by rewrite bool_decide_true.
  - unfold TSTEP_keyword. by rewrite addFromTSTEPKeyword_run.
Qed.

Lemma addFromTSTEPKeyword_stops_at_first_failure_witness :
  last (m_timeList (TimeMap_ctor 0)) = Some 0
  ∧ ∃ tm', addFromTSTEPKeyword (TSTEP_keyword ([10%float] ++ 0%float :: [5.5%float]))
             (TimeMap_ctor 0) = (tm', Throw ordering_violation)
      ∧ m_timeList tm' = [0; 864000].
Proof.
  split; [reflexivity|].
  destruct (addFromTSTEPKeyword_stops_at_first_failure (TimeMap_ctor 0) 0 eq_refl)
    as (Hstop & _).
  destruct (Hstop [10%float] 0%float [5.5%float]) as (tm' & Hrun & Htimes).
  - apply Forall_cons_2; [by vm_compute | apply Forall_nil_2].
  - by vm_compute.
  - apply (bool_decide_unpack _). by vm_compute.
  - exists tm'. split; [exact Hrun|]. rewrite Htimes. by vm_compute.
Defined.

(** ** The constructor from a deck *)

Lemma foreach_filter {A} (P : A → Prop) `{!∀ x, Decision (P x)} (l : list A)
    (body : A → method unit) (tm : TimeMap) :
  (∀ x tm', ¬ P x → body x tm' = (tm', Ok tt)) →
  foreach (filter P l) body tm = foreach l body tm.
Proof.
  intros Hskip. revert tm. induction l as [|x l IH]; intros tm; [done|].
  destruct (decide (P x)) as [Hx|Hx].
  - rewrite filter_cons_True by done. cbn [foreach]. rewrite !bind_run.
    destruct (body x tm) as [tm' [u|e]]; [apply IH | done].
  - rewrite filter_cons_False by done. cbn [foreach]. rewrite bind_run.
    rewrite (Hskip x tm Hx). apply IH.
Qed.

Lemma filter_filter_implied {A} (P Q : A → Prop) `{!∀ x, Decision (P x)}
    `{!∀ x, Decision (Q x)} (l : list A) :
  (∀ x, Q x → P x) → filter Q (filter P l) = filter Q l.
Proof.
  intros HQP. induction l as [|x l IH]; [done|].
  destruct (decide (P x)) as [Hx|Hx].
  - rewrite (filter_cons_True P) by done.
    destruct (decide (Q x)).
    + rewrite !(filter_cons_True Q) by done. by rewrite IH.
    + rewrite !(filter_cons_False Q) by done. done.
  - rewrite (filter_cons_False P) by done.
    rewrite (filter_cons_False Q) by (intros ?; by apply Hx, HQP). done.
Qed.

(** The constructor reads the START, TSTEP and DATES keywords only: a deck
    and the deck without its other keywords give the same timeline, or
    the same exception. *)
Theorem TimeMap_ctor_Deck_ignores_other_keywords (deck : Deck) :
  TimeMap_ctor_Deck
    (filter (λ k, name k = "START" ∨ name k = "TSTEP" ∨ name k = "DATES") deck)
  = TimeMap_ctor_Deck deck.
Proof.
  set (P := λ k : DeckKeyword,
              name k = "START" ∨ name k = "TSTEP" ∨ name k = "DATES").
  assert (Hhas : hasKeyword (filter P deck) "START" = hasKeyword deck "START").
  { unfold hasKeyword. apply bool_decide_ext. rewrite !Exists_exists.
    split.
    - intros (k & [_ Hk]%list_elem_of_filter & Hname). by exists k.
    - intros (k & Hk & Hname). exists k. split; [|done].
      apply list_elem_of_filter. split; [by left | done]. }
  assert (Hget : getKeyword (filter P deck) "START" = getKeyword deck "START").
  { unfold getKeyword. rewrite filter_filter_implied; [done|].
    intros k Hk. by left. }
  unfold TimeMap_ctor_Deck, TimeMap_ctor_Deck_body.
  rewrite !bind_run, Hhas, Hget.
  match goal with
  | |- context [?start TimeMap_empty] =>
      destruct (start TimeMap_empty) as [tm1 [u|e]]; [|done]
  end.
  rewrite (foreach_filter P); [done|].
  intros k tm' Hk. rewrite bool_decide_true; [done|].
  split; intros Hname; apply Hk; [by right; left | by right; right].
Qed.

(** The timeline that the constructor builds starts at the date of the
    first record of the (last) START keyword, and at 1983-01-01, the
    timestamp 410227200, when the deck has no START keyword; with no
    TSTEP and no DATES keyword in the deck it holds the start time
    only. *)
Theorem TimeMap_ctor_Deck_start_time (deck : Deck) (tm : TimeMap) :
  TimeMap_ctor_Deck deck = Ok tm →
  (hasKeyword deck "START" = false → getStartTime tm 0 = Ok 410227200)
  ∧ (hasKeyword deck "START" = true →
       ∃ keyword record t0,
         getKeyword deck "START" = Ok keyword
         ∧ getRecord keyword 0 = Ok record
         ∧ timeFromEclipse record = Ok t0
         ∧ getStartTime tm 0 = Ok t0)
  ∧ (Forall (λ k, name k ≠ "TSTEP" ∧ name k ≠ "DATES") deck →
       size tm = 1%N ∧ numTimesteps tm = 0%N)
  ∧ util_set_date_values_utc 410227200 = (1, 1, 1983).
Proof.
  intros (t0 & Hstart & Hloop)%TimeMap_ctor_Deck_inversion.
  assert (Hdefault : mkdate 1983 1 1 = Ok 410227200) by (vm_compute; reflexivity).
  assert (Hdate : util_set_date_values_utc 410227200 = (1, 1, 1983))
    by (vm_compute; reflexivity).
  revert Hstart Hdefault. generalize (mkdate 1983 1 1). intros r Hstart Hdefault.
  pose proof (keyword_loop_preserves_of_addTime _ deck
                (addTime_extends (TimeMap_ctor t0)) (TimeMap_ctor t0)
                (extends_refl _)) as Hext.
  rewrite Hloop in Hext. cbn [fst] in Hext.
  assert (Hat : getStartTime tm 0 = Ok t0).
  { pose proof (extends_lookup _ _ 0%nat t0 Hext eq_refl) as Ht0.
    unfold getStartTime, at_index, vec_size, vec_at.
    apply lookup_lt_Some in Ht0 as Hlen.
    rewrite bool_decide_true by lia.
    change (N.to_nat 0) with 0%nat. by rewrite Ht0. }
  split_and!; [| | |exact Hdate].
  - intros Hno. rewrite Hno in Hstart. rewrite Hdefault in Hstart.
    injection Hstart as <-. exact Hat.
  - intros Hyes. rewrite Hyes in Hstart.
    destruct Hstart as (keyword & record & Hk & Hr & Ht).
    exists keyword, record, t0. split_and!; assumption.
  - intros Hnone.
    assert (Hsame : tm = TimeMap_ctor t0).
    { clear -Hloop Hnone. revert Hloop. generalize (TimeMap_ctor t0).
      induction Hnone as [|k ks Hk _ IH]; intros tm0; cbn [foreach].
      - by intros [= ->].
      - rewrite bind_run, bool_decide_true by done. rewrite ret_run. apply IH. }
    subst tm. split; reflexivity.
Qed.

Lemma TimeMap_ctor_Deck_start_time_witness :
  TimeMap_ctor_Deck [TSTEP_keyword [10%float]]
  = Ok (mkTimeMap [410227200; 411091200] [] [])
  ∧ getStartTime (mkTimeMap [410227200; 411091200] [] []) 0 = Ok 410227200.
Proof.
  assert (Hrun : TimeMap_ctor_Deck [TSTEP_keyword [10%float]]
                 = Ok (mkTimeMap [410227200; 411091200] [] []))
    by (vm_compute; reflexivity).
  split; [exact Hrun|].
  destruct (TimeMap_ctor_Deck_start_time _ _ Hrun) as (Hdefault & _).
  apply Hdefault. vm_compute. reflexivity.
Defined.

(** ** Date records *)

Lemma mkdatetime_Ok_inv (year month day hour minute second : Z) (t : time_t) :
  mkdatetime year month day hour minute second = Ok t →
  t = util_make_datetime_utc second minute hour day month year.
Proof.
  unfold mkdatetime.
  generalize (util_make_datetime_utc second minute hour day month year).
  intros t0. destruct (util_set_date_values_utc t0) as [[d m] y].
  case_bool_decide; [discriminate|]. by intros [= <-].
Qed.

Lemma timeFromEclipse_date_record_Ok (day : Z) (month : string) (year : Z)
    (time : list string) (t : time_t) :
  timeFromEclipse (date_record day month year time) = Ok t
  ↔ ∃ m hour minute second,
      eclipseMonthIndices !! month = Some m
      ∧ time_of_day time = (hour, minute, second)
      ∧ valid_date year m day
      ∧ 0 ≤ hour * 3600 + minute * 60 + second < 86400
      ∧ t = days_from_civil year m day * 86400
            + (hour * 3600 + minute * 60 + second).
Proof.
  rewrite timeFromEclipse_date_record.
  change (match time with [] => _ | s :: _ => _ end) with (time_of_day time).
  destruct (time_of_day time) as [[hour minute] second].
  destruct (eclipseMonthIndices !! month) as [m|]; cycle 1.
  { split; [discriminate|]. by intros (m & ? & ? & ? & [=] & _). }
  split.
  - intros Ht. exists m, hour, minute, second.
    destruct (proj1 (mkdatetime_valid year m day hour minute second))
      as [Hvalid Hrange]; [by exists t|].
    split; [reflexivity|]. split; [reflexivity|]. split; [exact Hvalid|].
    split; [exact Hrange|].
    rewrite (mkdatetime_Ok_inv _ _ _ _ _ _ _ Ht).
    apply util_make_datetime_utc_days, Hvalid.
  - intros (m' & h & mi & s & [= <-] & [= <- <- <-] & Hvalid & Hrange & ->).
    destruct (proj2 (mkdatetime_valid year m day hour minute second))
      as [t Ht]; [by split|].
    rewrite Ht. f_equal.
    rewrite (mkdatetime_Ok_inv _ _ _ _ _ _ _ Ht).
    apply util_make_datetime_utc_days, Hvalid.
Qed.

(** [timeFromEclipse] returns a timestamp for a date record exactly when
    the month token is in the table, the day exists in that month of the
    year and the time of day lies within the day; the timestamp is then
    the day number times 86400 plus the seconds of the time of day. The
    synonyms of a month give the same result, and a time item that does
    not scan as three numbers separated by colons counts as midnight. *)
Theorem timeFromEclipse_date_record_spec (day year : Z) (time : list string) :
  (∀ month t,
     timeFromEclipse (date_record day month year time) = Ok t
     ↔ ∃ m hour minute second,
         eclipseMonthIndices !! month = Some m
         ∧ time_of_day time = (hour, minute, second)
         ∧ valid_date year m day
         ∧ 0 ≤ hour * 3600 + minute * 60 + second < 86400
         ∧ t = days_from_civil year m day * 86400
               + (hour * 3600 + minute * 60 + second))
  ∧ timeFromEclipse (date_record day "MAI" year time)
    = timeFromEclipse (date_record day "MAY" year time)
  ∧ timeFromEclipse (date_record day "JLY" year time)
    = timeFromEclipse (date_record day "JUL" year time)
  ∧ timeFromEclipse (date_record day "OKT" year time)
    = timeFromEclipse (date_record day "OCT" year time)
  ∧ timeFromEclipse (date_record day "DES" year time)
    = timeFromEclipse (date_record day "DEC" year time)
  ∧ (∀ month s rest, sscanf_hms s = None →
       timeFromEclipse (date_record day month year (s :: rest))
       = timeFromEclipse (date_record day month year [])).
Proof.
  assert (Hsyn : ∀ a b n,
    eclipseMonthIndices !! a = Some n → eclipseMonthIndices !! b = Some n →
    timeFromEclipse (date_record day a year time)
    = timeFromEclipse (date_record day b year time)).
  { intros a b n Ha Hb. rewrite !timeFromEclipse_date_record. by rewrite Ha, Hb. }
  assert (Hlookup : ∀ a n, (a, n) ∈ monthIndices_entries →
            eclipseMonthIndices !! a = Some n)
    by (intros a n; apply eclipseMonthIndices_lookup).
  split_and!.
  - intros month t. apply timeFromEclipse_date_record_Ok.
  - apply (Hsyn _ _ 5); apply Hlookup, (bool_decide_unpack _); by vm_compute.
  - apply (Hsyn _ _ 7); apply Hlookup, (bool_decide_unpack _); by vm_compute.
  - apply (Hsyn _ _ 10); apply Hlookup, (bool_decide_unpack _); by vm_compute.
  - apply (Hsyn _ _ 12); apply Hlookup, (bool_decide_unpack _); by vm_compute.
  - intros month s rest Hscan. rewrite !timeFromEclipse_date_record.
    by rewrite Hscan.
Qed.

Lemma timeFromEclipse_date_record_spec_witness :
  timeFromEclipse (date_record 29 "FEB" 2020 ["12:30:15"]) = Ok 1582979415
  ∧ timeFromEclipse (date_record 29 "FEB" 2021 ["12:30:15"])
    = Throw invalid_date
  ∧ timeFromEclipse (date_record 1 "OKT" 2020 ["noon"])
    = timeFromEclipse (date_record 1 "OKT" 2020 [])
  ∧ time_of_day ["4294967296:00:00"] = (0, 0, 0)
  ∧ timeFromEclipse (date_record 1 "JAN" 2010 ["4294967296:00:00"])
    = Ok 1262304000.
Proof.
  destruct (timeFromEclipse_date_record_spec 1 2010 ["4294967296:00:00"])
    as (Hint & _).
  assert (Hwide : timeFromEclipse (date_record 1 "JAN" 2010 ["4294967296:00:00"])
                  = Ok 1262304000).
  { apply Hint. exists 1, 0, 0, 0.
    split; [by vm_compute|]. split; [by vm_compute|].
    split; [split; [lia | vm_compute; by split; intros [=]]|].
    split; [lia | by vm_compute]. }
  cut (timeFromEclipse (date_record 29 "FEB" 2020 ["12:30:15"]) = Ok 1582979415
       ∧ timeFromEclipse (date_record 29 "FEB" 2021 ["12:30:15"])
         = Throw invalid_date
       ∧ timeFromEclipse (date_record 1 "OKT" 2020 ["noon"])
         = timeFromEclipse (date_record 1 "OKT" 2020 [])).
  { intros (H1 & H2 & H3).
    split; [exact H1|]. split; [exact H2|]. split; [exact H3|].
    split; [by vm_compute | exact Hwide]. }
  clear Hint Hwide.
  destruct (timeFromEclipse_date_record_spec 29 2020 ["12:30:15"])
    as (Hok & _).
  destruct (timeFromEclipse_date_record_spec 29 2021 ["12:30:15"])
    as (Hbad & _).
  destruct (timeFromEclipse_date_record_spec 1 2020 ["noon"])
    as (_ & _ & _ & _ & _ & Hmidnight).
  split_and!.
  - apply Hok. exists 2, 12, 30, 15.
    split; [by vm_compute|]. split; [by vm_compute|].
    split; [split; [lia | vm_compute; by split; intros [=]]|].
    split; [lia | by vm_compute].
  - destruct (timeFromEclipse (date_record 29 "FEB" 2021 ["12:30:15"]))
      as [t|e] eqn:Hrun; [|by vm_compute in Hrun].
    apply Hbad in Hrun as (m & h & mi & s & Hm & _ & [_ Hday] & _).
    vm_compute in Hm. injection Hm as <-. vm_compute in Hday.
    destruct Hday as [_ Hday]. by destruct Hday.
  - apply (Hmidnight "OKT" "noon" []). by vm_compute.
Defined.

(** ** Whole days *)

Lemma holds_from_spec (f : Z → bool) (start : Z) (count : nat) (k : Z) :
  holds_from f start count = true → start ≤ k < start + Z.of_nat count →
  f k = true.
Proof.
  revert start. induction count as [|count IH]; intros start Hall Hk; [lia|].
  cbn [holds_from] in Hall. apply andb_prop in Hall as [Hstart Hrest].
  destruct (decide (k = start)) as [->|Hne]; [done|].
  apply (IH (start + 1)); [done | lia].
Qed.

Lemma seconds_of_whole_days_checked :
  holds_from (λ k, Z.eqb (seconds_of_days (whole_days k)) (86400 * k))
    0 (Z.to_nat 36526) = true.
Proof. vm_compute. reflexivity. Qed.

(** For a day-count that is a whole number of days from 1 to 36525 (a
    hundred years), a TSTEP keyword appends the last timestamp plus
    exactly 86400 seconds per day, when that sum is a value of
    [time_t]. *)
Theorem addFromTSTEPKeyword_whole_days (tm : TimeMap) (L : time_t) (n : Z) :
  last (m_timeList tm) = Some L → 1 ≤ n ≤ 36525 →
  time_t_value (L + 86400 * n) →
  seconds_of_days (whole_days n) = 86400 * n
  ∧ ∃ tm', addFromTSTEPKeyword (TSTEP_keyword [whole_days n]) tm
           = (tm', Ok tt)
      ∧ m_timeList tm' = m_timeList tm ++ [L + 86400 * n].
Proof.
  intros HL Hn Hfit.
  assert (Hsec : seconds_of_days (whole_days n) = 86400 * n).
  { apply Z.eqb_eq.
    apply (holds_from_spec _ 0 (Z.to_nat 36526) n seconds_of_whole_days_checked).
    lia. }
  split; [exact Hsec|].
  destruct (foreach_addTStep_success [whole_days n] tm L HL)
    as (tm' & Hrun & Htimes).
  { apply Forall_cons_2; [rewrite Hsec; lia | apply Forall_nil_2]. }
  { cbn [map timestamps_after]. rewrite Hsec.
    apply Forall_cons_2; [exact Hfit | apply Forall_nil_2]. }
  exists tm'. unfold TSTEP_keyword. rewrite addFromTSTEPKeyword_run.
  split; [exact Hrun|]. rewrite Htimes. cbn [map timestamps_after].
  by rewrite Hsec.
Qed.

Lemma addFromTSTEPKeyword_whole_days_witness :
  last (m_timeList (TimeMap_ctor 0)) = Some 0 ∧ 1 ≤ 365 ≤ 36525
  ∧ seconds_of_days (whole_days 365) = 86400 * 365
  ∧ ∃ tm', addFromTSTEPKeyword (TSTEP_keyword [whole_days 365]) (TimeMap_ctor 0)
           = (tm', Ok tt)
      ∧ m_timeList tm' = m_timeList (TimeMap_ctor 0) ++ [0 + 86400 * 365].
Proof.
  split; [reflexivity|]. split; [lia|].
  apply (addFromTSTEPKeyword_whole_days (TimeMap_ctor 0) 0 365 eq_refl);
    [lia | unfold time_t_value; lia].
Defined.

(** ** Dates and timestamps *)

Lemma mkdatetime_Ok_valid (year month day hour minute second : Z) :
  valid_date year month day →
  0 ≤ hour * 3600 + minute * 60 + second < 86400 →
  mkdatetime year month day hour minute second
  = Ok (days_from_civil year month day * 86400
        + (hour * 3600 + minute * 60 + second)).
Proof.
  intros Hvalid Hrange.
  destruct (proj2 (mkdatetime_valid year month day hour minute second))
    as [t Ht]; [by split|].
  rewrite Ht. f_equal. rewrite (mkdatetime_Ok_inv _ _ _ _ _ _ _ Ht).
  apply util_make_datetime_utc_days, Hvalid.
Qed.

Lemma days_from_civil_closed (y m d : Z) :
  days_from_civil y m d =
  let Y := if bool_decide (m ≤ 2) then y - 1 else y in
  let mp := if bool_decide (2 < m) then m - 3 else m + 9 in
  365 * Y + Y / 4 - Y / 100 + Y / 400 + (153 * mp + 2) / 5 + d - 1 - 719468.
Proof.
  unfold days_from_civil. cbv zeta.
  generalize (if bool_decide (m ≤ 2) then y - 1 else y).
  generalize (if bool_decide (2 < m) then m - 3 else m + 9).
  intros mp Y. div_lia.
Qed.

(** The timestamps of the dates with a year of the range of [int] are
    far inside the range of [time_t]. *)
Lemma days_from_civil_int_year (y m d : Z) :
  - 2 ^ 31 ≤ y < 2 ^ 31 → 1 ≤ m ≤ 12 → 1 ≤ d ≤ 31 →
  - 2 ^ 40 < days_from_civil y m d < 2 ^ 40.
Proof.
  intros Hy Hm Hd. rewrite days_from_civil_closed. cbv zeta.
  repeat case_bool_decide; try lia; div_lia.
Qed.

Lemma forward_hms_forward (t hours minutes seconds : Z) :
  forward_hms t hours minutes seconds
  = forward t (hours * 3600 + minutes * 60 + seconds).
Proof.
  unfold forward_hms, forward.
  rewrite to_int64_add_r, to_int64_add_l.
  rewrite <- Z.add_assoc, to_int64_add_l.
  rewrite (Z.add_comm (to_int64 (minutes * 60))), Z.add_assoc, to_int64_add_r.
  f_equal. lia.
Qed.

(** For a date of the calendar and a time within the day, [mkdatetime]
    returns the timestamp of [mkdate] plus the seconds of the time of day.
    The two overloads of [forward] agree, and for a year of the range of
    [int] they move the timestamp of [mkdate] forward to the timestamp of
    [mkdatetime]. *)
Theorem mkdatetime_is_mkdate_forward (year month day hour minute second : Z) :
  valid_date year month day →
  0 ≤ hour * 3600 + minute * 60 + second < 86400 →
  ∃ t0, mkdate year month day = Ok t0
    ∧ t0 = days_from_civil year month day * 86400
    ∧ mkdatetime year month day hour minute second
      = Ok (t0 + (hour * 3600 + minute * 60 + second))
    ∧ forward_hms t0 hour minute second
      = forward t0 (hour * 3600 + minute * 60 + second)
    ∧ (- 2 ^ 31 ≤ year < 2 ^ 31 →
       mkdatetime year month day hour minute second
       = Ok (forward_hms t0 hour minute second)).
Proof.
  intros Hvalid Hrange. exists (days_from_civil year month day * 86400).
  unfold mkdate. rewrite !mkdatetime_Ok_valid by (done || lia).
  split_and!; [f_equal; lia | done | done | apply forward_hms_forward |].
  intros Hyear. f_equal. rewrite forward_hms_forward, forward_value; [done|].
  assert (Hday : 1 ≤ day ≤ 31).
  { destruct Hvalid as [_ Hd]. unfold days_in_month in Hd.
    repeat case_bool_decide; destruct (is_leap year); lia. }
  pose proof (days_from_civil_int_year year month day Hyear
                (proj1 Hvalid) Hday).
  unfold time_t_value. lia.
Qed.

Lemma mkdatetime_is_mkdate_forward_witness :
  valid_date 2020 2 29 ∧ 0 ≤ 12 * 3600 + 30 * 60 + 15 < 86400
  ∧ ∃ t0, mkdate 2020 2 29 = Ok t0
      ∧ mkdatetime 2020 2 29 12 30 15 = Ok (forward_hms t0 12 30 15).
Proof.
  assert (Hvalid : valid_date 2020 2 29).
  { split; [lia|]. vm_compute. by split; intros [=]. }
  split; [exact Hvalid|]. split; [lia|].
  destruct (mkdatetime_is_mkdate_forward 2020 2 29 12 30 15 Hvalid ltac:(lia))
    as (t0 & Hdate & _ & _ & _ & Htime).
  exists t0. split; [exact Hdate | apply Htime; lia].
Defined.

Lemma days_from_civil_lt (y m d y' m' d' : Z) :
  valid_date y m d → valid_date y' m' d' →
  date_before y m d y' m' d' →
  days_from_civil y m d < days_from_civil y' m' d'.
Proof.
  intros [Hm Hd] [Hm' Hd'] Hlt. rewrite !days_from_civil_closed. cbv zeta.
  unfold date_before, days_in_month, is_leap in *.
  apply month_cases in Hm.
  destruct_or! Hm; subst m; repeat case_bool_decide; try lia; div_lia.
Qed.

(** [mkdate] orders the dates of the calendar as the calendar does: of
    two dates the earlier one gets the smaller timestamp, and equal
    timestamps come from equal dates only. *)
Theorem mkdate_orders_dates (y m d y' m' d' : Z) :
  valid_date y m d → valid_date y' m' d' →
  ∃ t t', mkdate y m d = Ok t ∧ mkdate y' m' d' = Ok t'
    ∧ (t < t' ↔ date_before y m d y' m' d')
    ∧ (t = t' ↔ (y, m, d) = (y', m', d')).
Proof.
  intros Hvalid Hvalid'.
  exists (days_from_civil y m d * 86400), (days_from_civil y' m' d' * 86400).
  unfold mkdate. rewrite !mkdatetime_Ok_valid by (done || lia).
  split; [f_equal; lia|]. split; [f_equal; lia|].
  assert (Hcases : date_before y m d y' m' d' ∨ (y, m, d) = (y', m', d')
                   ∨ date_before y' m' d' y m d).
  { unfold date_before.
    destruct (Z.lt_trichotomy y y') as [?|[->|?]];
      [left; lia | | right; right; lia].
    destruct (Z.lt_trichotomy m m') as [?|[->|?]];
      [left; lia | | right; right; lia].
    destruct (Z.lt_trichotomy d d') as [?|[->|?]];
      [left; lia | by right; left | right; right; lia]. }
  destruct Hcases as [Hlt | [Heq | Hgt]].
  - pose proof (days_from_civil_lt _ _ _ _ _ _ Hvalid Hvalid' Hlt).
    split; split.
    + intros _. exact Hlt.
    + intros _. lia.
    + lia.
    + intros [= -> -> ->]. lia.
  - injection Heq as -> -> ->. split; split.
    + lia.
    + unfold date_before. lia.
    + done.
    + done.
  - pose proof (days_from_civil_lt _ _ _ _ _ _ Hvalid' Hvalid Hgt).
    split; split.
    + lia.
    + unfold date_before in *. lia.
    + lia.
    + intros [= -> -> ->]. lia.
Qed.

Lemma mkdate_orders_dates_witness :
  valid_date 2020 2 29 ∧ valid_date 2020 3 1
  ∧ ∃ t t', mkdate 2020 2 29 = Ok t ∧ mkdate 2020 3 1 = Ok t' ∧ t < t'.
Proof.
  assert (Hfeb : valid_date 2020 2 29).
  { split; [lia|]. vm_compute. by split; intros [=]. }
  assert (Hmar : valid_date 2020 3 1).
  { split; [lia|]. vm_compute. by split; intros [=]. }
  split; [exact Hfeb|]. split; [exact Hmar|].
  destruct (mkdate_orders_dates 2020 2 29 2020 3 1 Hfeb Hmar)
    as (t & t' & Ht & Ht' & Hlt & _).
  exists t, t'. split; [exact Ht|]. split; [exact Ht'|].
  apply Hlt. right. split; [reflexivity|]. left. lia.
Defined.

(** ** The unguarded frequency test *)

(** [isTimestepInFreqSequence] does not test that the timestep is in the
    vector: [std::find] returns the end for a timestep that is not, and
    the ranks are then counted up to one past the last element. The
    caller [isTimestepInFirstOfMonthsYearsSequence] answers false for
    such a timestep. The frequency is not zero, with which the source
    would divide by zero. *)
Theorem isTimestepInFreqSequence_unguarded (tm : TimeMap) (years : bool)
    (timestep start_timestep frequency : size_t) :
  let S := boundary_set tm years in
  strictly_increasing N.lt S → Z.of_nat (length S) + 1 < 2 ^ 31 →
  timestep ∉ S → (0 < frequency)%N →
  (isTimestepInFreqSequence tm timestep start_timestep frequency years = true
   ↔ ∃ anchor pa, is_anchor S start_timestep anchor
       ∧ S !! pa = Some anchor
       ∧ (N.of_nat (length S - pa + 1) mod frequency = 0)%N)
  ∧ isTimestepInFirstOfMonthsYearsSequence tm timestep years start_timestep
      frequency = false.
Proof.
  intros S HS Hlen Hout Hfreq. split; cycle 1.
  { unfold isTimestepInFirstOfMonthsYearsSequence.
    change (if years then getFirstTimestepYears tm else getFirstTimestepMonths tm)
      with S.
    rewrite bool_decide_false; [done|]. by rewrite <- std_find_elem_of. }
  unfold isTimestepInFreqSequence.
  change (if years then getFirstTimestepYears tm else getFirstTimestepMonths tm)
    with S.
  assert (Hpi : std_find S timestep = length S).
  { destruct (decide (std_find S timestep = vec_end S)) as [Heq|Hne]; [done|].
    by apply std_find_elem_of in Hne. }
  rewrite Hpi.
  pose proof (anchor_search S start_timestep HS) as Hanchor. cbv zeta in Hanchor.
  destruct (if bool_decide (std_find S start_timestep ≠ vec_end S) then _ else _)
    as [pa flag].
  cbn [fst snd] in Hanchor.
  destruct Hanchor as [(a & Ha & Hpa & ->) | [Hnone ->]]; cycle 1.
  { split; [done|]. intros (a & pa' & Ha & _). by destruct (Hnone a). }
  apply lookup_lt_Some in Hpa as Hlt.
  rewrite bool_decide_true by lia.
  rewrite (dist_conversion (length S + 1)) by lia.
  rewrite bool_decide_eq_true. split.
  - intros Hmod. by exists a, pa.
  - intros (a' & pa' & Ha' & Hpa' & Hmod).
    rewrite (is_anchor_unique S _ _ _ Ha' Ha) in Hpa'.
    by rewrite (strictly_increasing_lookup_inj S _ _ _ HS Hpa Hpa').
Qed.

Lemma isTimestepInFreqSequence_unguarded_witness :
  strictly_increasing N.lt (boundary_set (mkTimeMap [] [] [3; 6; 9]%N) false)
  ∧ Z.of_nat (length (boundary_set (mkTimeMap [] [] [3; 6; 9]%N) false)) + 1
    < 2 ^ 31
  ∧ (0 < 2)%N
  ∧ isTimestepInFreqSequence (mkTimeMap [] [] [3; 6; 9]%N) 5 3 2 false = true
  ∧ isTimestepInFirstOfMonthsYearsSequence (mkTimeMap [] [] [3; 6; 9]%N)
      5 false 3 2 = false.
Proof.
  assert (HS : strictly_increasing N.lt
                 (boundary_set (mkTimeMap [] [] [3; 6; 9]%N) false))
    by (apply strictly_increasing_three; lia).
  assert (Hlen : Z.of_nat (length (boundary_set (mkTimeMap [] [] [3; 6; 9]%N)
                                     false)) + 1 < 2 ^ 31) by (cbn; lia).
  split; [exact HS|]. split; [exact Hlen|]. split; [lia|].
  destruct (isTimestepInFreqSequence_unguarded (mkTimeMap [] [] [3; 6; 9]%N)
              false 5%N 3%N 2%N HS Hlen) as [Hfreq Hguard].
  { cbn. rewrite !elem_of_cons, elem_of_nil. lia. }
  { lia. }
  split; [|exact Hguard].
  apply Hfreq. exists 3%N, 0%nat. split_and!; [|reflexivity|reflexivity].
  left. split; [|reflexivity]. apply (bool_decide_unpack _). by vm_compute.
Defined.

(** ** Steps beyond the range of timestamps *)

(** A step of a positive number of seconds that takes the last timestamp
    beyond the largest [time_t] wraps around to a timestamp below it, and
    [addTStep] refuses it: the timeline does not change. The TSTEP
    day-count 6e13 is such a step after itself. *)
Theorem addTStep_overflow_refused (tm : TimeMap) (L : time_t) (step : int64_t) :
  last (m_timeList tm) = Some L →
  time_t_value L → time_t_value step → 2 ^ 63 ≤ L + step →
  forward L step = L + step - 2 ^ 64
  ∧ addTStep step tm = (tm, Throw ordering_violation).
Proof.
  intros HL HLfit Hstep Hover.
  assert (Hwrap : forward L step = L + step - 2 ^ 64).
  { unfold forward, to_int64, time_t_value in *.
    replace (L + step + 2 ^ 63) with (L + step - 2 ^ 63 + 1 * 2 ^ 64) by lia.
    rewrite Z.mod_add by lia. rewrite Z.mod_small by lia. lia. }
  split; [exact Hwrap|].
  apply (addTStep_fails_iff tm L step HL). rewrite Hwrap.
  unfold time_t_value in *. lia.
Qed.

Lemma addTStep_overflow_refused_witness :
  seconds_of_days 6e13 = 5184000000000000000
  ∧ addFromTSTEPKeyword (TSTEP_keyword [6e13%float]) (TimeMap_ctor 0)
    = (mkTimeMap [0; 5184000000000000000] [1%N] [1%N], Ok tt)
  ∧ forward 5184000000000000000 5184000000000000000
    = 5184000000000000000 + 5184000000000000000 - 2 ^ 64
  ∧ addTStep 5184000000000000000
      (mkTimeMap [0; 5184000000000000000] [1%N] [1%N])
    = (mkTimeMap [0; 5184000000000000000] [1%N] [1%N],
       Throw ordering_violation).
Proof.
  split; [by vm_compute|]. split; [by vm_compute|].
  apply (addTStep_overflow_refused
           (mkTimeMap [0; 5184000000000000000] [1%N] [1%N])
           5184000000000000000 5184000000000000000 eq_refl);
    unfold time_t_value; lia.
Defined.
